(** * hardhat-viem declaration generation and the Hardhat version notifier

    A shallow embedding of [packages/hardhat-viem/src/internal/tasks.ts]
    (the three compile sub-task overrides and the text generators they call)
    and of the version notifier that follows it in the same source file
    ([showNewVersionNotification] and its helpers), together with the
    properties the specification states about them.

    Conventions.
    - A JavaScript string is a [string]: the bytes of its UTF-8 encoding.
    - A JavaScript number that the code only counts with, compares or prints
      is a [Z]; the model covers the integers below [2^53] in magnitude.
    - A value that came out of [JSON.parse] is a [json] tree; an object keeps
      its keys in insertion order, as [JSON.stringify] prints them.
    - Code that throws returns [None]; code that performs I/O passes the state
      of the outside world explicitly, and what the outside world answers is
      a parameter: the theorems hold for every answer. *)

From Stdlib Require Import ZArith String Ascii List DecimalString Lia.
From stdpp Require Import base option list gmap strings.
From stdpp Require Import sorting.

Open Scope Z_scope.
Set Warnings "-register-all".

(** ** JavaScript built-ins used by the source *)

Module JS.

(** The double quote and the line feed, which Rocq string literals cannot
    hold conveniently. *)
Definition dq : string := String "034"%char EmptyString.
Definition nl : string := String "010"%char EmptyString.

(** A string between double quotes, as the templates write [".."]. The
    content is inserted verbatim (template literals do not escape). *)
Definition quoted (s : string) : string := dq +:+ s +:+ dq.

(** [Array.prototype.join] on an array of strings. *)
Definition join (sep : string) (l : list string) : string := String.concat sep l.

(** [Array.prototype.indexOf] on an array of strings: the first index holding
    a string strictly equal to [x], or [-1]. *)
Fixpoint indexOf_from (i : Z) (x : string) (l : list string) : Z :=
  match l with
  | [] => -1
  | y :: l' => if String.eqb y x then i else indexOf_from (i + 1) x l'
  end.

Definition indexOf (l : list string) (x : string) : Z := indexOf_from 0 x l.

(** [Array.prototype.includes] on an array of strings. *)
Definition includes (l : list string) (x : string) : bool :=
  existsb (String.eqb x) l.

(** [Array.prototype.filter] with the two-argument callback
    [(element, index) => ...]. *)
Fixpoint filter_from {A : Type} (i : nat) (p : A -> nat -> bool) (l : list A) : list A :=
  match l with
  | [] => []
  | x :: l' => if p x i then x :: filter_from (S i) p l' else filter_from (S i) p l'
  end.

Definition filter_indexed {A : Type} (p : A -> nat -> bool) (l : list A) : list A :=
  filter_from 0 p l.

(** [Array.prototype.find]. *)
Definition find {A : Type} (p : A -> bool) (l : list A) : option A := List.find p l.

(** [String.prototype.endsWith]. *)
Definition endsWith (s suffix : string) : bool :=
  let n := String.length s in
  let m := String.length suffix in
  if (m <=? n)%nat then String.eqb (String.substring (n - m) m s) suffix else false.

(** [String.prototype.split] with a one-character separator: the pieces
    between the occurrences of [sep], at least one piece. *)
Fixpoint split_acc (sep : ascii) (cur : string) (s : string) : list string :=
  match s with
  | EmptyString => [String.rev cur]
  | String c s' =>
      if Ascii.eqb c sep then String.rev cur :: split_acc sep EmptyString s'
      else split_acc sep (String c cur) s'
  end.

Definition split (sep : ascii) (s : string) : list string :=
  split_acc sep EmptyString s.

(** *** JSON values and [JSON.stringify] *)

(** The values [JSON.parse] produces. A JavaScript number is a double; the
    numbers the code modelled here meets are counts, which it prints, compares
    and increments. [JNum n] stands for the integer [n] of magnitude below
    [2^53], where the arithmetic, the comparisons and the printing of doubles
    are those of the integers. Fractions and larger numbers (which print with
    an exponent from [1e21] on and no longer count by one) are not covered. *)
Inductive json : Type :=
| JNull
| JBool (b : bool)
| JNum (n : Z)
| JStr (s : string)
| JArr (items : list json)
| JObj (members : list (string * json)).

(** Property access on a parsed object: the value stored under [key], [None]
    for JavaScript's [undefined]. Non-objects that come out of [JSON.parse]
    and are not [null] have none of the properties read in this file. *)
Fixpoint assoc (key : string) (members : list (string * json)) : option json :=
  match members with
  | [] => None
  | (k, v) :: rest => if String.eqb k key then Some v else assoc key rest
  end.

Definition prop (key : string) (j : json) : option json :=
  match j with
  | JObj members => assoc key members
  | _ => None
  end.

(** One hexadecimal digit, lower case. *)
Definition hex_digit (n : N) : ascii :=
  if (n <? 10)%N then ascii_of_N (48 + n) else ascii_of_N (87 + n).

(** [QuoteJSONString] on one character: the two-character escapes, [\u00xx]
    for the other control characters, the character itself otherwise. A
    well-formed string has no lone surrogate, and the bytes of a multi-byte
    UTF-8 sequence are all above [0x7f]: they are copied. *)
Definition quote_char (c : ascii) : string :=
  let n := N_of_ascii c in
  let bs := String "092"%char EmptyString in
  if (n =? 8)%N then bs +:+ "b"
  else if (n =? 9)%N then bs +:+ "t"
  else if (n =? 10)%N then bs +:+ "n"
  else if (n =? 12)%N then bs +:+ "f"
  else if (n =? 13)%N then bs +:+ "r"
  else if (n =? 34)%N then bs +:+ dq
  else if (n =? 92)%N then bs +:+ bs
  else if (n <? 32)%N then
    bs +:+ "u00" +:+ String (hex_digit (n / 16)) (String (hex_digit (n mod 16)) EmptyString)
  else String c EmptyString.

Fixpoint quote_chars (s : string) : string :=
  match s with
  | EmptyString => EmptyString
  | String c s' => quote_char c +:+ quote_chars s'
  end.

Definition quote (s : string) : string := dq +:+ quote_chars s +:+ dq.

(** [Number::toString] on an integer below [2^53] in magnitude. *)
Definition number_to_string (n : Z) : string := NilZero.string_of_int (Z.to_int n).

(** [SerializeJSONProperty] with the gap [gap] at the current indentation
    [indent]; [JSON.stringify(v)] is [stringify "" "" v] and
    [JSON.stringify(v, undefined, 2)] is [stringify "" "  " v]. *)
Fixpoint stringify (indent gap : string) (j : json) : string :=
  let stepback := indent in
  let indent := indent +:+ gap in
  let wrap (l r : string) (parts : list string) : string :=
    match parts with
    | [] => l +:+ r
    | _ =>
        if String.eqb gap EmptyString then l +:+ join "," parts +:+ r
        else l +:+ nl +:+ indent +:+ join ("," +:+ nl +:+ indent) parts
               +:+ nl +:+ stepback +:+ r
    end in
  match j with
  | JNull => "null"
  | JBool true => "true"
  | JBool false => "false"
  | JNum n => number_to_string n
  | JStr s => quote s
  | JArr items => wrap "[" "]" (List.map (stringify indent gap) items)
  | JObj members =>
      wrap "{" "}"
        (List.map
           (fun kv =>
              match kv with
              | (k, v) =>
                  quote k +:+ (if String.eqb gap EmptyString then ":" else ": ")
                  +:+ stringify indent gap v
              end)
           members)
  end.

Definition JSON_stringify (j : json) : string := stringify EmptyString EmptyString j.
Definition JSON_stringify_2 (j : json) : string := stringify EmptyString "  " j.

End JS.

(** ** Contract names ([hardhat/utils/contract-names]) *)

Module ContractNames.
Import JS.

(** Modelled from the spec: [getFullyQualifiedName] is imported from
    [hardhat/utils/contract-names], which is not part of the source at hand.
    The spec fixes the format of a QualifiedName as
    [sourceName + ":" + contractName]. *)
Definition getFullyQualifiedName (sourceName contractName : string) : string :=
  sourceName +:+ ":" +:+ contractName.

Record ParsedName := { sourceName : string; contractName : string }.

(** Modelled from the spec: [parseFullyQualifiedName], imported from the same
    module, is the inverse parse that splits a QualifiedName back into its two
    parts. A contract name holds no colon, so the split is at the last one; a
    name without a colon is refused (the function throws). *)
Definition parseFullyQualifiedName (fqn : string) : option ParsedName :=
  match List.rev (split ":" fqn) with
  | [] | [_] => None
  | name :: rsource =>
      Some {| sourceName := join ":" (List.rev rsource); contractName := name |}
  end.

End ContractNames.

(** ** [tasks.ts]: the generators *)

Module Tasks.
Import JS ContractNames.

Definition AUTOGENERATED_FILE_PREFACE : string :=
  join nl
    [ "// This file was autogenerated by hardhat-viem, do not edit it.";
      "// prettier-ignore";
      "// tslint:disable";
      "// eslint-disable" ].

(** The callback [(name, i) => contractNames.indexOf(name) !== i], written
    twice in the source (lines 68-70 and 154). *)
Definition not_first_occurrence (contractNames : list string) (name : string) (i : nat) : bool :=
  negb (indexOf contractNames name =? Z.of_nat i).

(** [dupContractNames] of the emit sub-task (lines 68-70). *)
Definition dupContractNames (contractNames : list string) : list string :=
  filter_indexed (not_first_occurrence contractNames) contractNames.

(** The members of [ArtifactsMap] that [generateArtifactsDefinition] prints:
    one [name: never;] for every element the filter keeps (lines 153-155). *)
Definition neverEntries (contractNames : list string) : list string :=
  List.map (fun name => name +:+ ": never;")
    (filter_indexed (not_first_occurrence contractNames) contractNames).

Definition generateArtifactsDefinition (contractNames : list string) : string :=
  AUTOGENERATED_FILE_PREFACE +:+ nl
  +:+ nl
  +:+ "import " +:+ quoted "hardhat/types/artifacts" +:+ ";" +:+ nl
  +:+ nl
  +:+ "declare module " +:+ quoted "hardhat/types/artifacts" +:+ " {" +:+ nl
  +:+ "  interface ArtifactsMap {" +:+ nl
  +:+ "    " +:+ join (nl +:+ "    ") (neverEntries contractNames) +:+ nl
  +:+ "  }" +:+ nl
  +:+ "}" +:+ nl.

(** *** [generateContractDeclaration] (lines 162-223)

    The artifact is the object that [readArtifact] parsed. [None] stands for
    an artifact on which the function throws a [TypeError] ([abi] is not an
    array, or holds [null]) or that is outside the types the source declares:
    [contractName] and [sourceName] are strings in [Artifact], and [inputs]
    is annotated as an array. *)

Definition string_prop (key : string) (j : json) : option string :=
  match prop key j with
  | Some (JStr s) => Some s
  | _ => None
  end.

Definition array_prop (key : string) (j : json) : option (list json) :=
  match prop key j with
  | Some (JArr items) => Some items
  | _ => None
  end.

(** [({ type }) => type === "constructor"]: destructuring [null] throws; a
    value without a [type] property compares [undefined] with the string. *)
Definition is_constructor (entry : json) : option bool :=
  match entry with
  | JNull => None
  | _ =>
      Some match prop "type" entry with
           | Some (JStr t) => String.eqb t "constructor"
           | _ => false
           end
  end.

(** [artifact.abi.find(({ type }) => type === "constructor")]: the first
    constructor entry, [Some None] for [undefined]. *)
Fixpoint find_constructor (abi : list json) : option (option json) :=
  match abi with
  | [] => Some None
  | entry :: rest =>
      match is_constructor entry with
      | None => None
      | Some true => Some (Some entry)
      | Some false => find_constructor rest
      end
  end.

(** [inputs] (lines 173-177). *)
Definition constructorInputs (artifact : json) : option (list json) :=
  abi ← array_prop "abi" artifact;
  constructorAbi ← find_constructor abi;
  match constructorAbi with
  | Some entry => array_prop "inputs" entry
  | None => Some []
  end.

(** The members of the object literal [{ name, type }]: [JSON.stringify]
    leaves out a property whose value is [undefined]. *)
Definition name_and_type (input : json) : json :=
  JObj (match prop "name" input with Some v => [("name", v)] | None => [] end
        ++ match prop "type" input with Some v => [("type", v)] | None => [] end).

(** The callback of [inputs.map] (lines 183-184); destructuring [null]
    throws. *)
Definition parameterType (input : json) : option string :=
  match input with
  | JNull => None
  | _ => Some ("AbiParameterToPrimitiveType<" +:+ JSON_stringify (name_and_type input) +:+ ">")
  end.

Definition parameterTypes (inputs : list json) : option (list string) :=
  mapM parameterType inputs.

(** [constructorArgs] (lines 179-187). *)
Definition constructorArgs (inputs : list json) : option string :=
  if (0 <? Z.of_nat (length inputs)) then
    types ← parameterTypes inputs;
    Some ("constructorArgs: [" +:+ join ", " types +:+ "]")
  else Some "constructorArgs?: []".

(** [validNames] (line 165). *)
Definition validNames (contractName fqn : string) (isDup : bool) : list string :=
  if isDup then [fqn] else [contractName; fqn].

Definition returnType (contractTypeName : string) : string :=
  "Promise<GetContractReturnType<" +:+ contractTypeName +:+ "[" +:+ quoted "abi" +:+ "]>>;".

(** The callback of the first [validNames.map] (lines 204-208). *)
Definition deployContractDeclaration (constructorArgs contractTypeName name : string) : string :=
  "export function deployContract(" +:+ nl
  +:+ "    contractName: " +:+ quoted name +:+ "," +:+ nl
  +:+ "    " +:+ constructorArgs +:+ "," +:+ nl
  +:+ "    config?: DeployContractConfig" +:+ nl
  +:+ "  ): " +:+ returnType contractTypeName.

(** The callback of the second [validNames.map] (lines 214-218). *)
Definition getContractAtDeclaration (contractTypeName name : string) : string :=
  "export function getContractAt(" +:+ nl
  +:+ "    contractName: " +:+ quoted name +:+ "," +:+ nl
  +:+ "    address: Address," +:+ nl
  +:+ "    config?: GetContractAtConfig" +:+ nl
  +:+ "  ): " +:+ returnType contractTypeName.

Definition typesImport (inputs : list json) : string :=
  if (0 <? Z.of_nat (length inputs)) then
    "import type { AbiParameterToPrimitiveType, GetContractReturnType } from "
    +:+ quoted "@nomicfoundation/hardhat-viem/types" +:+ ";"
  else
    "import type { GetContractReturnType } from "
    +:+ quoted "@nomicfoundation/hardhat-viem/types" +:+ ";".

(** The returned template (lines 189-222) over the values computed above. *)
Definition declarationText (inputs : list json) (contractTypeName json : string)
    (constructorArgs : string) (validNames : list string) : string :=
  AUTOGENERATED_FILE_PREFACE +:+ nl
  +:+ nl
  +:+ "import type { Address } from " +:+ quoted "viem" +:+ ";" +:+ nl
  +:+ typesImport inputs +:+ nl
  +:+ "import " +:+ quoted "@nomicfoundation/hardhat-viem/types" +:+ ";" +:+ nl
  +:+ nl
  +:+ "export interface " +:+ contractTypeName +:+ " " +:+ json +:+ nl
  +:+ nl
  +:+ "declare module " +:+ quoted "@nomicfoundation/hardhat-viem/types" +:+ " {" +:+ nl
  +:+ "  "
  +:+ join (nl +:+ "  ")
        (List.map (deployContractDeclaration constructorArgs contractTypeName) validNames)
  +:+ nl
  +:+ nl
  +:+ "  "
  +:+ join (nl +:+ "  ") (List.map (getContractAtDeclaration contractTypeName) validNames)
  +:+ nl
  +:+ "}" +:+ nl.

Definition generateContractDeclaration (artifact : json) (isDup : bool) : option string :=
  contractName ← string_prop "contractName" artifact;
  sourceName ← string_prop "sourceName" artifact;
  let fqn := getFullyQualifiedName sourceName contractName in
  let validNames := validNames contractName fqn isDup in
  let json := JSON_stringify_2 artifact in
  let contractTypeName := contractName +:+ "$Type" in
  inputs ← constructorInputs artifact;
  constructorArgs ← constructorArgs inputs;
  Some (declarationText inputs contractTypeName json constructorArgs validNames).

(** *** [generateDTsFile] (lines 225-252) *)

Record ContractTypeData := {
  ctd_contractName : string;
  ctd_fqn : string;
  ctd_typeName : string;
  ctd_declaration : string;
}.

Definition generateDTsFile (contractTypeData : list ContractTypeData) : string :=
  AUTOGENERATED_FILE_PREFACE +:+ nl
  +:+ nl
  +:+ "import " +:+ quoted "hardhat/types/artifacts" +:+ ";" +:+ nl
  +:+ nl
  +:+ join nl
        (List.map
           (fun ctd =>
              "import { " +:+ ctd_typeName ctd +:+ " } from "
              +:+ quoted ("./" +:+ ctd_contractName ctd) +:+ ";")
           contractTypeData)
  +:+ nl
  +:+ nl
  +:+ "declare module " +:+ quoted "hardhat/types/artifacts" +:+ " {" +:+ nl
  +:+ "  interface ArtifactsMap {" +:+ nl
  +:+ "    "
  +:+ join (nl +:+ "    ")
        (List.map
           (fun ctd => "[" +:+ quoted (ctd_contractName ctd) +:+ "]: " +:+ ctd_typeName ctd +:+ ";")
           contractTypeData)
  +:+ nl
  +:+ "    "
  +:+ join (nl +:+ "    ")
        (List.map
           (fun ctd => "[" +:+ quoted (ctd_fqn ctd) +:+ "]: " +:+ ctd_typeName ctd +:+ ";")
           contractTypeData)
  +:+ nl
  +:+ "  }" +:+ nl
  +:+ "}" +:+ nl.

(** *** The file system under [config.paths.artifacts]

    A path is the list of the segments of a normalized absolute path; the
    file system maps the path of every regular file to its content, and a
    directory exists when a file lies below it. *)

Definition path : Type := list string.

Definition path_to_string (p : path) : string := "/" +:+ join "/" p.

(** [path.join(dir, rel)] for a relative [rel] that is normalized, as source
    names and the file names built here are. *)
Definition path_join (dir : path) (rel : string) : path := dir ++ split "/" rel.

(** [path.dirname]. *)
Definition dirname (p : path) : path := removelast p.

(** [path.relative(from, to)] for a [to] that lies below [from] (or is
    [from]), the only case that arises. *)
Definition relative (from to : path) : string := join "/" (drop (length from) to).

(** Something else is in the way of a regular file at [p]: a directory at
    [p] (a file lies below it) or a regular file at a directory above [p]. *)
Definition in_the_way (p : path) (fs : gmap path string) : bool :=
  existsb (fun q => bool_decide (q ≠ p ∧ (p `prefix_of` q ∨ q `prefix_of` p)))
    (map_to_list fs).*1.

(** [writeFile]: the file is created or replaced. On a path where something
    is in the way the call fails ([EISDIR], [ENOTDIR]) and nothing changes;
    both callers catch the error, log it and go on. The directory the file
    goes into is taken to exist: the callers create it or are handed it.
    Failures that do not come from the paths (permissions, a full disk) are
    not modelled: apart from a path that is in the way, a write is taken to
    succeed. *)
Definition writeFile (p : path) (content : string) (fs : gmap path string) : gmap path string :=
  if in_the_way p fs then fs else <[p := content]> fs.

(** [mkdir(dir, { recursive: true })] rejects when a regular file stands at
    [dir] or at a directory above it, and creates what is missing
    otherwise. *)
Definition mkdir_rejects (dir : path) (fs : gmap path string) : bool :=
  existsb (fun q => bool_decide (q `prefix_of` dir)) (map_to_list fs).*1.

(** [rm(p, { force: true, recursive: true })]: everything at or below [p]
    goes; nothing happens, and nothing is raised, when nothing is there. *)
Definition rm (p : path) (fs : gmap path string) : gmap path string :=
  filter (fun entry => ¬ p `prefix_of` entry.1) fs.

(** Modelled from the spec: [getAllFilesMatching] is imported from
    [hardhat/internal/util/fs-utils], which is not part of the source at
    hand. The spec has it scan the given directory, recursively, for the
    files whose absolute path satisfies the predicate. *)
Definition getAllFilesMatching (dir : path) (matches : string -> bool)
    (fs : gmap path string) : list path :=
  List.filter
    (fun f => bool_decide (dir `prefix_of` f) && matches (path_to_string f))
    (map_to_list fs).*1.

(** *** The sub-task overrides

    What the host hands to the actions: the fully qualified names that
    [artifacts.getAllFullyQualifiedNames()] returns, [artifacts.readArtifact]
    ([None] when it throws), the directory [config.paths.artifacts], and the
    file system as [runSuper()] left it. [None] is a rejected action.

    The emit sub-task starts all its [writeFile] calls before it awaits any
    of them. Node orders nothing between calls that are in flight on the same
    path, and each of them truncates the file and writes its bytes from the
    start: the file may end with the content of either, or with a mix.
    [concurrentWrites p contents] is what the file at [p] holds once all the
    calls on it, with these contents in the order they were started, have
    settled; nothing is assumed about it. *)

Record Host := {
  fullyQualifiedNames : list string;
  readArtifact : string -> option json;
  paths_artifacts : path;
  concurrentWrites : path -> list string -> string;
}.

(** [fqns.map((fqn) => parseFullyQualifiedName(fqn).contractName)]. *)
Definition contractNamesOf (fqns : list string) : option (list string) :=
  mapM (fun fqn => contractName <$> parseFullyQualifiedName fqn) fqns.

(** The override of [TASK_COMPILE_SOLIDITY] (lines 31-53). *)
Definition compileSolidity (h : Host) (fs : gmap path string) : option (gmap path string) :=
  contractNames ← contractNamesOf (fullyQualifiedNames h);
  let artifactsDTs := generateArtifactsDefinition contractNames in
  Some (writeFile (path_join (paths_artifacts h) "artifacts.d.ts") artifactsDTs fs).

(** One element of [artifactsEmittedPerFile]. *)
Record EmittedFile := {
  file_sourceName : string;
  artifactsEmitted : list string;
}.

(** The callback of [artifactsEmitted.map] (lines 80-89). *)
Definition contractTypeDataOf (h : Host) (dupContractNames : list string)
    (sourceName contractName : string) : option ContractTypeData :=
  let fqn := getFullyQualifiedName sourceName contractName in
  artifact ← readArtifact h fqn;
  let isDup := includes dupContractNames contractName in
  declaration ← generateContractDeclaration artifact isDup;
  let typeName := contractName +:+ "$Type" in
  Some {| ctd_contractName := contractName; ctd_fqn := fqn;
          ctd_typeName := typeName; ctd_declaration := declaration |}.

(** The contents of the [writeFile] calls started on [p]. *)
Definition contentsFor (p : path) (writes : list (path * string)) : list string :=
  (List.filter (fun w => bool_decide (w.1 = p)) writes).*2.

(** What [p] holds once the calls on it have settled: the content of the one
    call, or what the host makes of several. *)
Definition settledContent (h : Host) (writes : list (path * string)) (p : path) : string :=
  match contentsFor p writes with
  | [content] => content
  | contents => concurrentWrites h p contents
  end.

(** The file system once all of [writes], started together, have settled
    ([await Promise.all(fp)], lines 100-104: a failure is logged). *)
Definition settle (h : Host) (writes : list (path * string)) (fs : gmap path string)
    : gmap path string :=
  foldl (fun fs w => writeFile w.1 (settledContent h writes w.1) fs) fs writes.

(** The callback of [artifactsEmittedPerFile.map] up to its [await] of the
    writes (lines 73-98): the [writeFile] calls it starts, as path and
    content, in the order of [fp]. [mkdir] meets the file system as the
    action found it. *)
Definition emitFileWrites (h : Host) (dupContractNames : list string)
    (fs : gmap path string) (e : EmittedFile) : option (list (path * string)) :=
  let srcDir := path_join (paths_artifacts h) (file_sourceName e) in
  if mkdir_rejects srcDir fs then None
  else
    contractTypeData ←
      mapM (contractTypeDataOf h dupContractNames (file_sourceName e)) (artifactsEmitted e);
    let fp :=
      List.map
        (fun ctd => (path_join srcDir (ctd_contractName ctd +:+ ".d.ts"), ctd_declaration ctd))
        contractTypeData in
    let dTs := generateDTsFile contractTypeData in
    Some (fp ++ [(path_join srcDir "artifacts.d.ts", dTs)]).

(** The callback of [artifactsEmittedPerFile.map] (lines 73-105), run for
    one source file on its own. *)
Definition emitFile (h : Host) (dupContractNames : list string)
    (fs : gmap path string) (e : EmittedFile) : option (gmap path string) :=
  writes ← emitFileWrites h dupContractNames fs e;
  Some (settle h writes fs).

(** The override of [TASK_COMPILE_SOLIDITY_EMIT_ARTIFACTS] (lines 60-110):
    the callbacks of all source files run together under one [Promise.all],
    so the writes of all of them are in flight together. *)
Definition emitArtifacts (h : Host) (artifactsEmittedPerFile : list EmittedFile)
    (fs : gmap path string) : option (gmap path string) :=
  contractNames ← contractNamesOf (fullyQualifiedNames h);
  let dupContractNames := dupContractNames contractNames in
  writes ← mapM (emitFileWrites h dupContractNames fs) artifactsEmittedPerFile;
  Some (settle h (concat writes) fs).

(** The body of the loop of the pruner (lines 128-135). *)
Definition removeIfObsolete (root : path) (existingSourceFiles : gset string)
    (fs : gmap path string) (fileDTs : path) : gmap path string :=
  let dir := dirname fileDTs in
  let sourceName := relative root dir in
  if bool_decide (sourceName ∈ existingSourceFiles) then fs else rm dir fs.

(** The override of [TASK_COMPILE_REMOVE_OBSOLETE_ARTIFACTS] (lines 116-139). *)
Definition removeObsoleteArtifacts (h : Host) (fs : gmap path string) : option (gmap path string) :=
  parsed ← mapM parseFullyQualifiedName (fullyQualifiedNames h);
  let existingSourceFiles : gset string := list_to_set (List.map sourceName parsed) in
  let allFilesDTs :=
    getAllFilesMatching (paths_artifacts h) (fun f => endsWith f "file.d.ts") fs in
  Some (foldl (removeIfObsolete (paths_artifacts h) existingSourceFiles) fs allFilesDTs).

End Tasks.

(** ** The version notifier *)

Module Notifier.
Import JS.

Definition GITHUB_REPO : string := "hardhat".
Definition V3_RELEASE_TAG : string := "hardhat@3.0.0".
Definition V3_RELEASE_VERSION_NOTIFIER_ASSET_NAME : string := "version-notifier-message.txt".
Definition V3_RELEASE_MAX_TIMES_SHOWN : Z := 5.

Record Asset := {
  asset_name : string;
  browser_download_url : string;
}.

Record Release := {
  name : string;
  tag_name : string;
  draft : bool;
  prerelease : bool;
  published_at : string;
  html_url : string;
  assets : list Asset;
  body : string;
}.

(** [lastCheck] is [string | 0]: [None] is the number [0]. *)
Record VersionNotifierCache := {
  lastCheck : option string;
  v3TimesShown : Z;
  v3Release : option Release;
  v3ReleaseMessage : option string;
}.

(** The library functions the notifier calls: [Date], [semver], [boxen] and
    [chalk], and the engine's [Array.prototype.sort]. [Date_getTime s] is
    [new Date(s).getTime()], [None] for [NaN]; [semver_valid] returns [None]
    for [null]; [semver_gt] is applied to a valid version and to the version
    of the running package.

    [Array.prototype.sort] is stable, and the order it leaves is fixed by the
    comparator when the comparator is consistent. When it is not, the order is
    implementation-defined: [sort_rank releases] is the rank by which the
    engine then leaves the elements of [releases] (every permutation of a
    list is its stable sort by some rank). *)
Record Platform := {
  Date_getTime : string -> option Z;
  Date_toISOString : Z -> string;
  semver_valid : string -> option string;
  semver_major : string -> Z;
  semver_gt : string -> string -> bool;
  boxen : string -> string;
  chalk_red : string -> string;
  chalk_green : string -> string;
  sort_rank : list Release -> Release -> Z;
}.

(** What the request of the release list answers: the request or the parse
    of its body threw; the body was JSON but no array ([null], or an object
    such as the error GitHub sends when the rate limit is exceeded); or it was
    an array of releases. *)
Inductive ReleasesResponse :=
| ReleasesFailed
| ReleasesNotArray
| ReleasesArray (releases : list Release).

(** What the pinned-release request answers: the request or the parse of its
    body threw (or the body was [null], on which reading [message] throws
    inside the [try]); the body said [Not Found]; the body was some other JSON
    value without a [tag_name] string (an error object, or no object at all);
    or it was a release. *)
Inductive V3Response :=
| V3Failed
| V3NotFound
| V3NotARelease
| V3Found (r : Release).

(** What [getV3Release] returns when it does not return [undefined]: the
    cast of line 465 checks nothing, so the value is the body, a release or
    not. *)
Inductive ReleaseBody :=
| NotRelease
| IsRelease (r : Release).

(** What one invocation meets outside the process: the clock, the version of
    the running package, the answers of the three GitHub requests (for the
    asset, [None] when the request throws) and whether the cache file can be
    written. *)
Record World := {
  now : Z;
  hardhatVersion : string;
  releasesResponse : ReleasesResponse;
  v3ReleaseResponse : V3Response;
  assetResponse : string -> option string;
  cacheWritable : bool;
}.

(** What an invocation does that can be observed; [UncaughtTypeError] is a
    [TypeError] that no [try] catches: the promise of the invocation is
    rejected. *)
Inductive event :=
| RequestReleases
| RequestV3Release
| RequestAsset (url : string)
| LogNewRelease (text : string)
| LogV3Message (text : string)
| WriteCache (content : json)
| UncaughtTypeError.

(** The state the invocation runs in: the events so far and the cache file,
    by the value [JSON.parse] gives for its content ([None] when the file is
    missing or is no JSON text). *)
Record Io := {
  trace : list event;
  cacheFile : option json;
}.

(** A computation of the notifier: from a state to the state it leaves and
    its result, [None] when it threw what nothing caught. *)
Definition M (A : Type) : Type := Io -> option A * Io.

#[export] Instance M_ret : MRet M := fun _ a io => (Some a, io).
#[export] Instance M_bind : MBind M := fun _ _ f m io =>
  match m io with
  | (Some a, io') => f a io'
  | (None, io') => (None, io')
  end.

Definition emit (e : event) : M unit :=
  fun io => (Some tt, {| trace := trace io ++ [e]; cacheFile := cacheFile io |}).

Definition throwTypeError {A : Type} : M A :=
  fun io => (None, {| trace := trace io ++ [UncaughtTypeError]; cacheFile := cacheFile io |}).

Definition asset_to_json (a : Asset) : json :=
  JObj [("name", JStr (asset_name a)); ("browser_download_url", JStr (browser_download_url a))].

Definition release_to_json (r : Release) : json :=
  JObj [("name", JStr (name r)); ("tag_name", JStr (tag_name r));
        ("draft", JBool (draft r)); ("prerelease", JBool (prerelease r));
        ("published_at", JStr (published_at r)); ("html_url", JStr (html_url r));
        ("assets", JArr (List.map asset_to_json (assets r)));
        ("body", JStr (body r))].

(** The object [JSON.stringify] prints for a cache: a property that is
    [undefined] is left out. *)
Definition cache_to_json (cache : VersionNotifierCache) : json :=
  JObj ([("lastCheck", match lastCheck cache with Some s => JStr s | None => JNum 0 end);
         ("v3TimesShown", JNum (v3TimesShown cache))]
        ++ match v3ReleaseMessage cache with Some m => [("v3ReleaseMessage", JStr m)] | None => [] end
        ++ match v3Release cache with Some r => [("v3Release", release_to_json r)] | None => [] end).

Definition defaultCache : VersionNotifierCache :=
  {| lastCheck := None; v3TimesShown := 0; v3Release := None; v3ReleaseMessage := None |}.

(** [readCache] (lines 377-398): only [lastCheck] and [v3TimesShown] are
    taken from the file; destructuring [null] throws, which is caught. *)
Definition cacheFromFile (file : option json) : VersionNotifierCache :=
  match file with
  | None | Some JNull => defaultCache
  | Some content =>
      {| lastCheck := match prop "lastCheck" content with Some (JStr s) => Some s | _ => None end;
         v3TimesShown := match prop "v3TimesShown" content with Some (JNum n) => n | _ => 0 end;
         v3Release := None;
         v3ReleaseMessage := None |}
  end.

Definition readCache : M VersionNotifierCache :=
  fun io => (Some (cacheFromFile (cacheFile io)), io).

Section WithPlatform.
Variable P : Platform.
Variable w : World.

(** [writeCache] (lines 400-410): a failure is swallowed and leaves the file
    as it was. *)
Definition writeCache (cache : VersionNotifierCache) : M unit :=
  fun io =>
    (Some tt, {| trace := trace io ++ [WriteCache (cache_to_json cache)];
            cacheFile := if cacheWritable w then Some (cache_to_json cache) else cacheFile io |}).

(** The comparator of [releases.sort]: a [NaN] counts as [0]. *)
Definition by_published_at_desc (a b : Release) : Z :=
  match Date_getTime P (published_at b), Date_getTime P (published_at a) with
  | Some tb, Some ta => tb - ta
  | _, _ => 0
  end.

(** A stable sort by [compare]: an element moves behind the ones [compare]
    puts strictly before it. *)
Fixpoint insert_release (compare : Release -> Release -> Z) (r : Release)
    (sorted : list Release) : list Release :=
  match sorted with
  | [] => [r]
  | r' :: rest =>
      if 0 <? compare r r' then r' :: insert_release compare r rest
      else r :: sorted
  end.

Definition stable_sort (compare : Release -> Release -> Z) (releases : list Release)
    : list Release :=
  foldr (insert_release compare) [] releases.

(** Every [published_at] is a date: the comparator is then consistent. *)
Definition dates_parse (releases : list Release) : bool :=
  forallb
    (fun r => match Date_getTime P (published_at r) with Some _ => true | None => false end)
    releases.

(** [releases.sort(...)] (lines 435-438): newest first, in the order of the
    array among releases of the same time, when every date parses; in the
    order of the engine otherwise. *)
Definition sort_releases (releases : list Release) : list Release :=
  if dates_parse releases then stable_sort by_published_at_desc releases
  else stable_sort (fun a b => sort_rank P releases a - sort_rank P releases b) releases.

(** [getReleases] (lines 412-441): the request and the parse are inside the
    [try], the sort is not, and a body that is no array has no [sort]. *)
Definition getReleases : M (list Release) :=
  _ ← emit RequestReleases;
  match releasesResponse w with
  | ReleasesArray releases => mret (sort_releases releases)
  | ReleasesFailed => mret (sort_releases [])
  | ReleasesNotArray => throwTypeError
  end.

(** [getV3Release] (lines 443-471): [Not Found] is thrown and caught like
    any failure of the request; any other body is returned. *)
Definition getV3Release : M (option ReleaseBody) :=
  _ ← emit RequestV3Release;
  mret match v3ReleaseResponse w with
       | V3Found r => Some (IsRelease r)
       | V3NotARelease => Some NotRelease
       | V3NotFound | V3Failed => None
       end.

(** [getV3ReleaseMessage] (lines 473-502). *)
Definition getV3ReleaseMessage (v3Release : Release) : M (option string) :=
  let versionNotifierAsset :=
    find (fun a => String.eqb (asset_name a) V3_RELEASE_VERSION_NOTIFIER_ASSET_NAME)
      (assets v3Release) in
  match versionNotifierAsset with
  | None => mret None
  | Some asset =>
      _ ← emit (RequestAsset (browser_download_url asset));
      mret (assetResponse w (browser_download_url asset))
  end.

(** [semver.valid(tag.split("@")[1])]; [semver.valid(undefined)] is [null]. *)
Definition version_of_tag (tag : string) : option string :=
  match split "@" tag with
  | _ :: packageVersion :: _ => semver_valid P packageVersion
  | _ => None
  end.

(** The callback of [releases.find] (lines 315-327). *)
Definition isLatestV2Candidate (release : Release) : bool :=
  if draft release || prerelease release then false
  else
    match split "@" (tag_name release) with
    | packageName :: packageVersion :: _ =>
        String.eqb packageName GITHUB_REPO
        && match semver_valid P packageVersion with
           | Some _ => semver_major P packageVersion =? 2
           | None => false
           end
    | _ => false
    end.

(** [latestV2Release] (lines 315-327). *)
Definition latestV2ReleaseOf (releases : list Release) : option Release :=
  find isLatestV2Candidate releases.

Definition newReleaseText (hardhatVersion releaseVersion : string) : string :=
  "New Hardhat release available! " +:+ chalk_red P hardhatVersion
  +:+ " -> " +:+ chalk_green P releaseVersion +:+ "." +:+ nl
  +:+ nl
  +:+ "Changelog: https://hardhat.org/release/" +:+ releaseVersion +:+ nl
  +:+ nl
  +:+ "Run " +:+ quoted "npm install hardhat@latest" +:+ " to update.".

(** Lines 336-353. *)
Definition notifyNewRelease (latestV2Release : option Release) : M unit :=
  match latestV2Release with
  | Some latestV2Release =>
      match version_of_tag (tag_name latestV2Release) with
      | Some releaseVersion =>
          if semver_gt P releaseVersion (hardhatVersion w) then
            emit (LogNewRelease (boxen P (newReleaseText (hardhatVersion w) releaseVersion)))
          else mret tt
      | None => mret tt
      end
  | None => mret tt
  end.

(** [v3Release.tag_name.split("@")] (line 356), the first thing done with a
    pinned release that is not [undefined]: a [TypeError] on a value without
    a [tag_name] string. *)
Definition releaseWithTag (v3Release : option ReleaseBody) : M (option Release) :=
  match v3Release with
  | Some (IsRelease r) => mret (Some r)
  | Some NotRelease => throwTypeError
  | None => mret None
  end.

(** Lines 355-368, on a release whose tag was read; the cache object is
    mutated in place, so the new one is returned. *)
Definition notifyV3Release (cache : VersionNotifierCache) (v3Release : option Release)
    : M VersionNotifierCache :=
  match v3Release with
  | Some v3Release =>
      match version_of_tag (tag_name v3Release) with
      | Some _ =>
          if v3TimesShown cache <? V3_RELEASE_MAX_TIMES_SHOWN then
            message ← match v3ReleaseMessage cache with
                      | Some m => mret (Some m)
                      | None => getV3ReleaseMessage v3Release
                      end;
            let cache :=
              {| lastCheck := lastCheck cache; v3TimesShown := v3TimesShown cache;
                 v3Release := Notifier.v3Release cache; v3ReleaseMessage := message |} in
            match message with
            | Some m =>
                _ ← emit (LogV3Message (boxen P m));
                mret {| lastCheck := lastCheck cache; v3TimesShown := v3TimesShown cache + 1;
                        v3Release := Notifier.v3Release cache;
                        v3ReleaseMessage := v3ReleaseMessage cache |}
            | None => mret cache
            end
          else mret cache
      | None => mret cache
      end
  | None => mret cache
  end.

(** [new Date(cache.lastCheck).getTime()]: [new Date(0)] is the epoch. *)
Definition lastCheckTime (cache : VersionNotifierCache) : option Z :=
  match lastCheck cache with
  | None => Some 0
  | Some s => Date_getTime P s
  end.

(** The condition of the guard (line 307); a comparison with [NaN] is
    false. *)
Definition checkedRecently (cache : VersionNotifierCache) : bool :=
  let oneDay := 1000 * 60 * 60 * 24 in
  match lastCheckTime cache with
  | Some t => now w - t <? oneDay
  | None => false
  end.

(** [showNewVersionNotification] (lines 300-375). *)
Definition showNewVersionNotification : M unit :=
  cache ← readCache;
  if checkedRecently cache then mret tt
  else
    releases ← getReleases;
    let latestV2Release := latestV2ReleaseOf releases in
    v3Release ← match Notifier.v3Release cache with
                 | Some r => mret (Some (IsRelease r))
                 | None => getV3Release
                 end;
    match latestV2Release, v3Release with
    | None, None => mret tt
    | _, _ =>
        _ ← notifyNewRelease latestV2Release;
        v3Release ← releaseWithTag v3Release;
        cache ← notifyV3Release cache v3Release;
        writeCache
          {| lastCheck := Some (Date_toISOString P (now w));
             v3TimesShown := v3TimesShown cache;
             v3Release := v3Release;
             v3ReleaseMessage := v3ReleaseMessage cache |}
    end.

End WithPlatform.

(** One invocation from a cache file: the events and the file afterwards. *)
Definition invoke (P : Platform) (w : World) (file : option json) : list event * option json :=
  let io := (showNewVersionNotification P w {| trace := []; cacheFile := file |}).2 in
  (trace io, cacheFile io).

(** Successive invocations, each in its own world, over the same cache
    file: the events of each and the file at the end. *)
Fixpoint invocations (P : Platform) (ws : list World) (file : option json)
    : list (list event) * option json :=
  match ws with
  | [] => ([], file)
  | w :: ws' =>
      let (events, file') := invoke P w file in
      let (rest, final) := invocations P ws' file' in
      (events :: rest, final)
  end.

(** What the two lanes add when they run from a state without events: the
    notice of lane 1, and the cache and the events lane 2 ends with. *)
Definition newReleaseEvents (P : Platform) (w : World) (latestV2Release : option Release)
    : list event :=
  trace (notifyNewRelease P w latestV2Release {| trace := []; cacheFile := None |}).2.

Definition v3Outcome (P : Platform) (w : World) (cache : VersionNotifierCache)
    (v3Release : option Release) : VersionNotifierCache * list event :=
  let result := notifyV3Release P w cache v3Release {| trace := []; cacheFile := None |} in
  (default cache result.1, trace result.2).

(** The stable release the list request leads to, and the pinned release the
    tag request leads to. *)
Definition latestV2Release (P : Platform) (w : World) : option Release :=
  latestV2ReleaseOf P
    (sort_releases P match releasesResponse w with ReleasesArray rs => rs | _ => [] end).

Definition fetchedV3Release (w : World) : option Release :=
  match v3ReleaseResponse w with
  | V3Found r => Some r
  | V3NotARelease | V3NotFound | V3Failed => None
  end.

(** The answers on which the invocation throws: a release list that is no
    array, at the sort; a pinned release that is none, where its tag is
    read. *)
Definition listBodyThrows (w : World) : bool :=
  match releasesResponse w with ReleasesNotArray => true | _ => false end.

Definition v3BodyThrows (w : World) : bool :=
  match v3ReleaseResponse w with V3NotARelease => true | _ => false end.

Definition oneDay : Z := 1000 * 60 * 60 * 24.

(** Unfolds the monad of the notifier. *)
Ltac unfold_monad := unfold emit, throwTypeError, mbind, mret, M_bind, M_ret in *.

Definition is_request (e : event) : bool :=
  match e with
  | RequestReleases | RequestV3Release | RequestAsset _ => true
  | _ => false
  end.

Definition is_v3_notice (e : event) : bool :=
  match e with LogV3Message _ => true | _ => false end.


End Notifier.

(** ** A concrete platform

    An instance of [Platform] to run the notifier on: [Date] restricted to
    the format [toISOString] writes, [semver] restricted to plain
    [major.minor.patch] versions, and no styling. The theorems below hold for
    every platform; this one is for the examples. *)

Module Sample.
Import JS Notifier.

Fixpoint digits_acc (acc : Z) (s : string) : option Z :=
  match s with
  | EmptyString => Some acc
  | String c s' =>
      let n := Z.of_N (N_of_ascii c) in
      if (48 <=? n) && (n <=? 57) then digits_acc (10 * acc + (n - 48)) s' else None
  end.

(** A non-empty string of decimal digits. *)
Definition digits (s : string) : option Z :=
  match s with
  | EmptyString => None
  | _ => digits_acc 0 s
  end.

(** [String.prototype.padStart(width, "0")]. *)
Definition pad (width : nat) (s : string) : string :=
  join EmptyString (repeat "0" (width - String.length s)) +:+ s.

Definition padded (width : nat) (n : Z) : string := pad width (number_to_string n).

(** Days since the epoch of a date of the proleptic Gregorian calendar. *)
Definition days_from_civil (y m d : Z) : Z :=
  let y := if m <=? 2 then y - 1 else y in
  let era := y / 400 in
  let yoe := y - era * 400 in
  let mp := (m + 9) mod 12 in
  let doy := (153 * mp + 2) / 5 + d - 1 in
  let doe := yoe * 365 + yoe / 4 - yoe / 100 + doy in
  era * 146097 + doe - 719468.

Definition civil_from_days (z : Z) : Z * Z * Z :=
  let z := z + 719468 in
  let era := z / 146097 in
  let doe := z - era * 146097 in
  let yoe := (doe - doe / 1460 + doe / 36524 - doe / 146096) / 365 in
  let doy := doe - (365 * yoe + yoe / 4 - yoe / 100) in
  let mp := (5 * doy + 2) / 153 in
  let d := doy - (153 * mp + 2) / 5 + 1 in
  let m := if mp <? 10 then mp + 3 else mp - 9 in
  let y := yoe + era * 400 + (if m <=? 2 then 1 else 0) in
  (y, m, d).

Definition msPerDay : Z := 1000 * 60 * 60 * 24.

(** [Date.prototype.toISOString] for the years 0000 to 9999. *)
Definition toISOString (t : Z) : string :=
  let '(y, m, d) := civil_from_days (t / msPerDay) in
  let ms := t mod msPerDay in
  padded 4 y +:+ "-" +:+ padded 2 m +:+ "-" +:+ padded 2 d
  +:+ "T" +:+ padded 2 (ms / 3600000) +:+ ":" +:+ padded 2 (ms / 60000 mod 60)
  +:+ ":" +:+ padded 2 (ms / 1000 mod 60) +:+ "." +:+ padded 3 (ms mod 1000) +:+ "Z".

(** [new Date(s).getTime()] for an [s] of the form
    [YYYY-MM-DDTHH:mm:ss.sssZ]; any other string is an invalid date. *)
Definition getTime (s : string) : option Z :=
  let field i n := digits (String.substring i n s) in
  let sep i c := String.eqb (String.substring i 1 s) c in
  if (String.length s =? 24)%nat && sep 4%nat "-" && sep 7%nat "-" && sep 10%nat "T"
     && sep 13%nat ":" && sep 16%nat ":" && sep 19%nat "." && sep 23%nat "Z"
  then
    y ← field 0%nat 4%nat; m ← field 5%nat 2%nat; d ← field 8%nat 2%nat;
    h ← field 11%nat 2%nat; mi ← field 14%nat 2%nat; sec ← field 17%nat 2%nat;
    ms ← field 20%nat 3%nat;
    if (1 <=? m) && (m <=? 12) && (1 <=? d) && (d <=? 31) && (h <? 24) && (mi <? 60) && (sec <? 60)
    then Some (days_from_civil y m d * msPerDay + h * 3600000 + mi * 60000 + sec * 1000 + ms)
    else None
  else None.

(** The three numbers of a plain [major.minor.patch] version. *)
Definition version_numbers (v : string) : option (Z * Z * Z) :=
  match split "." v with
  | [a; b; c] => x ← digits a; y ← digits b; z ← digits c; Some (x, y, z)
  | _ => None
  end.

Definition valid (v : string) : option string :=
  _ ← version_numbers v; Some v.

Definition major (v : string) : Z :=
  match version_numbers v with
  | Some (x, _, _) => x
  | None => 0
  end.

Definition gt (a b : string) : bool :=
  match version_numbers a, version_numbers b with
  | Some (x, y, z), Some (x', y', z') =>
      (x' <? x) || ((x' =? x) && ((y' <? y) || ((y' =? y) && (z' <? z))))
  | _, _ => false
  end.

Definition platform : Platform :=
  {| Date_getTime := getTime;
     Date_toISOString := toISOString;
     semver_valid := valid;
     semver_major := major;
     semver_gt := gt;
     boxen := fun text => text;
     chalk_red := fun text => text;
     chalk_green := fun text => text;
     sort_rank := fun _ _ => 0 |}.

End Sample.

(** ** Notions used in the statements, and data for the examples *)

Module Text.

(** [piece] stands somewhere in [text]. *)
Definition occurs_in (piece text : string) : Prop :=
  ∃ before after : string, text = before +:+ piece +:+ after.

End Text.

Module Examples.
Import JS Tasks.

(** An artifact as Hardhat writes it. *)
Definition artifact (sourceName contractName : string) (abi : list json) : json :=
  JObj [("_format", JStr "hh-sol-artifact-1");
        ("contractName", JStr contractName);
        ("sourceName", JStr sourceName);
        ("abi", JArr abi);
        ("bytecode", JStr "0x");
        ("deployedBytecode", JStr "0x");
        ("linkReferences", JObj []);
        ("deployedLinkReferences", JObj [])].

Definition parameter (name type : string) : json :=
  JObj [("internalType", JStr type); ("name", JStr name); ("type", JStr type)].

Definition constructorEntry (inputs : list json) : json :=
  JObj [("inputs", JArr inputs); ("stateMutability", JStr "nonpayable");
        ("type", JStr "constructor")].

Definition functionEntry (name : string) : json :=
  JObj [("inputs", JArr []); ("name", JStr name); ("outputs", JArr []);
        ("stateMutability", JStr "view"); ("type", JStr "function")].

(** A contract whose constructor takes two arguments. *)
Definition token : json :=
  artifact "contracts/Token.sol" "Token"
    [constructorEntry [parameter "supply" "uint256"; parameter "owner" "address"];
     functionEntry "totalSupply"].


(** A contract without a constructor entry. *)
Definition counter : json :=
  artifact "contracts/Counter.sol" "Counter" [functionEntry "count"].




(** Three source files with one contract each, compiled together; then
    [contracts/Z.sol] is deleted and the remaining two are what the host
    still knows. *)
Definition plain (sourceName contractName : string) : json :=
  artifact sourceName contractName [functionEntry "run"].

Definition hostXYZ : Host :=
  {| fullyQualifiedNames := ["contracts/X.sol:X"; "contracts/Y.sol:Y"; "contracts/Z.sol:Z"];
     readArtifact :=
       fun fqn =>
         assoc fqn [("contracts/X.sol:X", plain "contracts/X.sol" "X");
                    ("contracts/Y.sol:Y", plain "contracts/Y.sol" "Y");
                    ("contracts/Z.sol:Z", plain "contracts/Z.sol" "Z")];
     paths_artifacts := ["project"; "artifacts"];
     concurrentWrites := fun _ contents => default EmptyString (last contents) |}.

Definition emittedXYZ : list EmittedFile :=
  [ {| file_sourceName := "contracts/X.sol"; artifactsEmitted := ["X"] |};
    {| file_sourceName := "contracts/Y.sol"; artifactsEmitted := ["Y"] |};
    {| file_sourceName := "contracts/Z.sol"; artifactsEmitted := ["Z"] |} ].

(** What the emit sub-task leaves on an empty disk. *)
Definition generated : gmap path string :=
  default ∅ (emitArtifacts hostXYZ emittedXYZ ∅).

Definition hostXY : Host :=
  {| fullyQualifiedNames := ["contracts/X.sol:X"; "contracts/Y.sol:Y"];
     readArtifact :=
       fun fqn =>
         assoc fqn [("contracts/X.sol:X", plain "contracts/X.sol" "X");
                    ("contracts/Y.sol:Y", plain "contracts/Y.sol" "Y")];
     paths_artifacts := ["project"; "artifacts"];
     concurrentWrites := fun _ contents => default EmptyString (last contents) |}.

(** A disk on which two directories hold a file named [file.d.ts]: the one
    of [contracts/X.sol], still a valid source for [hostXY], and the one of
    [contracts/W.sol], which is not. *)
Definition markedFs : gmap path string :=
  {[ ["project"; "artifacts"; "contracts"; "X.sol"; "file.d.ts"] := "x";
     ["project"; "artifacts"; "contracts"; "X.sol"; "X.d.ts"] := "x";
     ["project"; "artifacts"; "contracts"; "W.sol"; "file.d.ts"] := "w";
     ["project"; "artifacts"; "contracts"; "W.sol"; "W.d.ts"] := "w" ]}.

End Examples.

Module Runs.
Import JS Notifier.

(** A published release with the notifier's message attached. *)
Definition release (tag published : string) : Release :=
  {| name := tag; tag_name := tag; draft := false; prerelease := false;
     published_at := published;
     html_url := "https://github.com/NomicFoundation/hardhat/releases/tag/" +:+ tag;
     assets := [ {| asset_name := "version-notifier-message.txt";
                    browser_download_url := "https://example.org/version-notifier-message.txt" |} ];
     body := "Release notes" |}.

Definition hardhat3 : Release := release "hardhat@3.0.0" "2025-08-13T00:00:00.000Z".

(** GitHub answers every request. *)
Definition online (now : Z) : World :=
  {| now := now;
     hardhatVersion := "2.22.0";
     releasesResponse :=
       ReleasesArray [release "hardhat@2.22.1" "2024-03-14T00:00:00.000Z";
                      release "hardhat@2.26.3" "2025-08-11T00:00:00.000Z";
                      hardhat3];
     v3ReleaseResponse := V3Found hardhat3;
     assetResponse := fun _ => Some "Hardhat 3 is out";
     cacheWritable := true |}.

(** No request gets through. *)
Definition offline (now : Z) : World :=
  {| now := now;
     hardhatVersion := "2.22.0";
     releasesResponse := ReleasesFailed;
     v3ReleaseResponse := V3Failed;
     assetResponse := fun _ => None;
     cacheWritable := true |}.

(** The times of 2026-10-31, 2026-11-01 and 2026-11-02, 00:00:00.000 UTC. *)
Definition oct31 : Z := 1793404800000.
Definition nov1 : Z := 1793491200000.
Definition nov2 : Z := 1793577600000.

(** A cache file with the two properties [readCache] reads. *)
Definition cacheFileOf (lastCheck : string) (v3TimesShown : Z) : json :=
  JObj [("lastCheck", JStr lastCheck); ("v3TimesShown", JNum v3TimesShown)].

(** The cache file an invocation of 2026-10-31 wrote after it met the pinned
    release: it holds the descriptor and the message. *)
Definition cacheFileWithRelease : json :=
  cache_to_json
    {| lastCheck := Some "2026-10-31T00:00:00.000Z";
       v3TimesShown := 1;
       v3Release := Some hardhat3;
       v3ReleaseMessage := Some "Hardhat 3 is out" |}.

End Runs.

(** ** Further notions used in the statements *)

Module Notions.
Import JS Tasks Notifier.

(** The notices of the pinned release among some events. *)
Definition v3_notices (events : list event) : list event := List.filter is_v3_notice events.

(** The releases the list request brought, none when it failed. *)
Definition receivedReleases (w : World) : list Release :=
  match releasesResponse w with ReleasesArray rs => rs | _ => [] end.

Definition publishedTime (P : Platform) (r : Release) : option Z :=
  Date_getTime P (published_at r).

(** [r] was published at the time of [r'] or later. *)
Definition published_no_later (P : Platform) (r r' : Release) : Prop :=
  ∃ t t' : Z, publishedTime P r = Some t ∧ publishedTime P r' = Some t' ∧ t' <= t.

(** The string holds no slash. *)
Fixpoint no_slash (s : string) : bool :=
  match s with
  | EmptyString => true
  | String c s' => negb (Ascii.eqb c "/") && no_slash s'
  end.

Definition is_object (j : json) : bool :=
  match j with JObj _ => true | _ => false end.

(** Nothing is in the way of a regular file at [p]: no file stands at a
    directory above [p], and no file lies below [p]. *)
Definition clear_at (p : path) (fs : gmap path string) : Prop :=
  ∀ q : path, is_Some (fs !! q) → q ≠ p → ¬ p `prefix_of` q ∧ ¬ q `prefix_of` p.

(** [p] is not a directory: no file lies below it. *)
Definition no_directory_at (p : path) (fs : gmap path string) : Prop :=
  ∀ q : path, is_Some (fs !! q) → p `prefix_of` q → q = p.

(** What [emitFile] leaves on an empty disk for [contracts/X.sol]. *)
Definition emittedX : gmap path string :=
  default ∅
    (emitFile Examples.hostXYZ [] ∅
       {| file_sourceName := "contracts/X.sol"; artifactsEmitted := ["X"] |}).

(** The host of the three source files, when the first of the writes in
    flight on one path wins instead of the last. *)
Definition hostXYZfirst : Host :=
  {| fullyQualifiedNames := fullyQualifiedNames Examples.hostXYZ;
     readArtifact := readArtifact Examples.hostXYZ;
     paths_artifacts := paths_artifacts Examples.hostXYZ;
     concurrentWrites := fun _ contents => default EmptyString (head contents) |}.

(** A disk with the package file of the project, and what the emit sub-task
    leaves on it. *)
Definition projectFs : gmap path string :=
  {[ ["project"; "package.json"] := "{}" ]}.

Definition generatedInProject : gmap path string :=
  default ∅ (emitArtifacts Examples.hostXYZ Examples.emittedXYZ projectFs).

End Notions.

(** * Properties *)

(** ** Facts about the built-ins *)

Module JSFacts.
Import JS.

Lemma eqb_true (a b : string) : String.eqb a b = true ↔ a = b.
Proof. apply String.eqb_eq. Qed.

(** An option that is [Some] is [Some] of its value. *)
Lemma default_Some {A : Type} (o : option A) (d : A) :
  match o with Some _ => true | None => false end = true → o = Some (default d o).
Proof. by destruct o. Qed.


(** [filter] keeps the elements whose callback is true at their own index. *)
Lemma filter_from_elem {A : Type} (p : A -> nat -> bool) (l : list A) (k : nat) (x : A) :
  x ∈ filter_from k p l ↔ ∃ i : nat, l !! i = Some x ∧ p x (k + i)%nat = true.
Proof.
  revert k. induction l as [|y l IH]; intros k; simpl.
  - split; [by intros ?%elem_of_nil | by intros (i & ? & _)].
  - assert (Hstep : x ∈ filter_from (S k) p l ↔
                    ∃ i : nat, l !! i = Some x ∧ p x (k + S i)%nat = true).
    { rewrite IH. by setoid_rewrite Nat.add_succ_r. }
    destruct (p y k) eqn:Hp.
    + rewrite elem_of_cons, Hstep. split.
      * intros [-> | (i & Hi & Hpi)].
        -- exists 0%nat. by rewrite Nat.add_0_r.
        -- by exists (S i).
      * intros ([|i] & Hi & Hpi); simpl in Hi.
        -- left. congruence.
        -- right. by exists i.
    + rewrite Hstep. split.
      * intros (i & Hi & Hpi). by exists (S i).
      * intros ([|i] & Hi & Hpi); simpl in Hi.
        -- injection Hi as ->. rewrite Nat.add_0_r in Hpi. congruence.
        -- by exists i.
Qed.

(** [indexOf] answers the first index that holds the string. *)
Lemma indexOf_from_first (l : list string) (k : Z) (x : string) (i : nat) :
  l !! i = Some x →
  ∃ j : nat, (j <= i)%nat ∧ l !! j = Some x
             ∧ (∀ j' : nat, (j' < j)%nat → l !! j' ≠ Some x)
             ∧ indexOf_from k x l = k + Z.of_nat j.
Proof.
  revert k i. induction l as [|y l IH]; intros k i Hi; [done|]. simpl.
  destruct (String.eqb y x) eqn:Heq.
  - apply eqb_true in Heq as ->. exists 0%nat.
    repeat split; [lia | | lia]. intros j' Hj'. lia.
  - destruct i as [|i]; simpl in Hi.
    + injection Hi as ->. rewrite String.eqb_refl in Heq. done.
    + destruct (IH (k + 1) i Hi) as (j & Hle & Hj & Hmin & Hidx).
      exists (S j). repeat split; [lia | done | | lia].
      intros [|j'] Hlt; simpl.
      * intros [= ->]. rewrite String.eqb_refl in Heq. done.
      * apply Hmin. lia.
Qed.

End JSFacts.

(** ** Name collisions *)

Module Collisions.
Import JS Tasks JSFacts.

Lemma not_first_occurrence_true (names : list string) (x : string) (i : nat) :
  not_first_occurrence names x i = true ↔ indexOf names x ≠ Z.of_nat i.
Proof.
  unfold not_first_occurrence. rewrite negb_true_iff, Z.eqb_neq. done.
Qed.


(** C7. The collision computation keeps a name exactly when the name stands
    at a position of the list whose index is not the one [indexOf] answers
    for it, the index of its first occurrence; on the list
    [["A"; "B"; "A"; "C"]] it keeps ["A"] and nothing else. *)
Theorem dupContractNames_index_mismatch :
  (∀ (contractNames : list string) (name : string),
     name ∈ dupContractNames contractNames ↔
     ∃ i : nat, contractNames !! i = Some name
                ∧ indexOf contractNames name ≠ Z.of_nat i)
  ∧ (∀ (contractNames : list string) (name : string) (i : nat),
       contractNames !! i = Some name →
       ∃ first : nat, indexOf contractNames name = Z.of_nat first
                      ∧ contractNames !! first = Some name
                      ∧ ∀ j : nat, (j < first)%nat → contractNames !! j ≠ Some name)
  ∧ dupContractNames ["A"; "B"; "A"; "C"] = ["A"].
Proof.
  split; [|split].
  - intros names x. unfold dupContractNames, filter_indexed.
    rewrite filter_from_elem. simpl.
    by setoid_rewrite not_first_occurrence_true.
  - intros names x i Hi.
    destruct (indexOf_from_first names 0 x i Hi) as (f & _ & Hf & Hmin & Hidx).
    exists f. unfold indexOf. split; [lia | done].
  - reflexivity.
Qed.

End Collisions.

(** ** The declaration generator *)

Module Generator.
Import JS ContractNames Tasks JSFacts Text Collisions.

Lemma append_cons (c : ascii) (s t : string) : String c s +:+ t = String c (s +:+ t).
Proof. reflexivity. Qed.

Lemma append_nil_r (s : string) : s +:+ EmptyString = s.
Proof. induction s as [|c s IH]; [done|]. by rewrite append_cons, IH. Qed.

Lemma append_assoc (s t u : string) : (s +:+ t) +:+ u = s +:+ (t +:+ u).
Proof. induction s as [|c s IH]; [done|]. by rewrite !append_cons, IH. Qed.

Lemma length_append (s t : string) :
  String.length (s +:+ t) = (String.length s + String.length t)%nat.
Proof. induction s as [|c s IH]; [done|]. rewrite append_cons. simpl. by rewrite IH. Qed.

Lemma occurs_in_refl (s : string) : occurs_in s s.
Proof. exists EmptyString, EmptyString. by rewrite append_nil_r. Qed.

Lemma occurs_in_app_l (piece s t : string) : occurs_in piece t → occurs_in piece (s +:+ t).
Proof. intros (b & a & ->). exists (s +:+ b), a. by rewrite append_assoc. Qed.

Lemma occurs_in_app_r (piece s t : string) : occurs_in piece s → occurs_in piece (s +:+ t).
Proof. intros (b & a & ->). exists b, (a +:+ t). by rewrite !append_assoc. Qed.

(** Every element of an array stands in its [join]. *)
Lemma occurs_in_join (sep piece : string) (l : list string) :
  piece ∈ l → occurs_in piece (join sep l).
Proof.
  unfold join. induction l as [|x l IH]; [by intros ?%elem_of_nil|].
  intros [->|Hin]%elem_of_cons; simpl.
  - destruct l; [apply occurs_in_refl | apply occurs_in_app_r, occurs_in_refl].
  - destruct l as [|y l]; [by apply elem_of_nil in Hin|].
    by apply occurs_in_app_l, occurs_in_app_l, IH.
Qed.


Lemma constructorArgs_nil : constructorArgs [] = Some "constructorArgs?: []".
Proof. reflexivity. Qed.

(** With parameters, none of them [null], the list is printed from the
    types of the inputs, one for one. *)
Lemma constructorArgs_cons (inputs : list json) :
  inputs ≠ [] →
  Forall (λ input, input ≠ JNull) inputs →
  ∃ types : list string,
    constructorArgs inputs = Some ("constructorArgs: [" +:+ join ", " types +:+ "]")
    ∧ Forall2
        (λ input type,
           type = "AbiParameterToPrimitiveType<" +:+ JSON_stringify (name_and_type input) +:+ ">")
        inputs types.
Proof.
  intros Hne Hnull.
  set (f := λ input, "AbiParameterToPrimitiveType<" +:+ JSON_stringify (name_and_type input) +:+ ">").
  assert (Hall : Forall2 (λ input type, parameterType input = Some type) inputs (f <$> inputs)).
  { apply Forall2_fmap_r, Forall_Forall2_diag.
    eapply Forall_impl; [exact Hnull|]. intros input Hin. by destruct input. }
  apply mapM_Some_2 in Hall.
  exists (f <$> inputs). split.
  - unfold constructorArgs, parameterTypes. rewrite Hall.
    destruct inputs; [done|]. reflexivity.
  - apply Forall2_fmap_r, Forall_Forall2_diag, Forall_forall. done.
Qed.

(** What the generator returns once its reads succeed. *)
Lemma generateContractDeclaration_text (artifact : json) (isDup : bool)
    (contractName sourceName args : string) (inputs : list json) :
  string_prop "contractName" artifact = Some contractName →
  string_prop "sourceName" artifact = Some sourceName →
  constructorInputs artifact = Some inputs →
  constructorArgs inputs = Some args →
  generateContractDeclaration artifact isDup =
  Some (declarationText inputs (contractName +:+ "$Type") (JSON_stringify_2 artifact) args
          (validNames contractName (getFullyQualifiedName sourceName contractName) isDup)).
Proof.
  intros Hname Hsource Hinputs Hargs. unfold generateContractDeclaration.
  rewrite Hname, Hsource. simpl. rewrite Hinputs. simpl. rewrite Hargs. done.
Qed.

(** Each declared name has its deploy signature in the text. *)
Lemma deployContractDeclaration_occurs (inputs : list json)
    (typeName text args name : string) (names : list string) :
  name ∈ names →
  occurs_in (deployContractDeclaration args typeName name)
    (declarationText inputs typeName text args names).
Proof.
  intros Hin. unfold declarationText.
  repeat lazymatch goal with
         | |- occurs_in _ (join _ (List.map (deployContractDeclaration _ _) _) +:+ _) => fail
         | |- occurs_in _ (_ +:+ _) => apply occurs_in_app_l
         end.
  apply occurs_in_app_r, occurs_in_join.
  apply list_elem_of_In, in_map, list_elem_of_In, Hin.
Qed.

Lemma string_prop_Some (key : string) (j : json) (s : string) :
  prop key j = Some (JStr s) → string_prop key j = Some s.
Proof. unfold string_prop. by intros ->. Qed.

Lemma array_prop_Some (key : string) (j : json) (items : list json) :
  prop key j = Some (JArr items) → array_prop key j = Some items.
Proof. unfold array_prop. by intros ->. Qed.

(** An entry that is not [null] and whose [type] is not the string
    [constructor] is passed over by [find]. *)
Lemma is_constructor_false (entry : json) :
  entry ≠ JNull → prop "type" entry ≠ Some (JStr "constructor") →
  is_constructor entry = Some false.
Proof.
  intros Hnull Htype. unfold is_constructor.
  destruct entry; try done; f_equal.
  destruct (prop "type" _) as [[| | |t| |]|] eqn:Hprop; try done.
  destruct (String.eqb t "constructor") eqn:Heq; [|done].
  apply eqb_true in Heq as ->. done.
Qed.

Lemma is_constructor_true (entry : json) :
  prop "type" entry = Some (JStr "constructor") → is_constructor entry = Some true.
Proof.
  intros Htype. unfold is_constructor. rewrite Htype.
  by destruct entry.
Qed.

(** [find] returns the first entry whose [type] is [constructor]. *)
Lemma find_constructor_first (before after : list json) (entry : json) :
  Forall (λ e, e ≠ JNull ∧ prop "type" e ≠ Some (JStr "constructor")) before →
  prop "type" entry = Some (JStr "constructor") →
  find_constructor (before ++ entry :: after) = Some (Some entry).
Proof.
  intros Hbefore Hentry. induction Hbefore as [|e before [Hnull Htype] _ IH]; simpl.
  - by rewrite (is_constructor_true entry Hentry).
  - by rewrite (is_constructor_false e Hnull Htype).
Qed.

Lemma find_constructor_none (abi : list json) :
  Forall (λ e, e ≠ JNull ∧ prop "type" e ≠ Some (JStr "constructor")) abi →
  find_constructor abi = Some None.
Proof.
  induction 1 as [|e abi [Hnull Htype] _ IH]; [done|]. simpl.
  by rewrite (is_constructor_false e Hnull Htype).
Qed.

(** The element type printed for an input that has a name and a type. *)
Lemma parameterType_named (input name type : json) :
  prop "name" input = Some name → prop "type" input = Some type →
  parameterType input =
  Some ("AbiParameterToPrimitiveType<"
        +:+ JSON_stringify (JObj [("name", name); ("type", type)]) +:+ ">").
Proof.
  intros Hname Htype. unfold parameterType, name_and_type. rewrite Hname, Htype.
  by destruct input.
Qed.

(** The argument list of inputs that all have a name and a type. *)
Lemma constructorArgs_named (inputs : list json) :
  Forall (λ input, is_Some (prop "name" input) ∧ is_Some (prop "type" input)) inputs →
  ∃ elementTypes : list string,
    Forall2
      (λ input elementType,
         ∃ name type : json,
           prop "name" input = Some name ∧ prop "type" input = Some type
           ∧ elementType =
             "AbiParameterToPrimitiveType<"
             +:+ JSON_stringify (JObj [("name", name); ("type", type)]) +:+ ">")
      inputs elementTypes
    ∧ constructorArgs inputs =
      Some match inputs with
           | [] => "constructorArgs?: []"
           | _ => "constructorArgs: [" +:+ join ", " elementTypes +:+ "]"
           end.
Proof.
  intros Hnamed.
  assert (∃ elementTypes : list string,
            Forall2
              (λ input elementType,
                 ∃ name type : json,
                   prop "name" input = Some name ∧ prop "type" input = Some type
                   ∧ elementType =
                     "AbiParameterToPrimitiveType<"
                     +:+ JSON_stringify (JObj [("name", name); ("type", type)]) +:+ ">")
              inputs elementTypes
            ∧ parameterTypes inputs = Some elementTypes) as (types & Htypes & Hmap).
  { unfold parameterTypes.
    induction Hnamed as [|input inputs [[name Hname] [type Htype]] _ (types & Htypes & Hmap)].
    - exists []. by split.
    - eexists (_ :: types). split.
      + constructor; [|exact Htypes]. by exists name, type.
      + cbn [mapM]. rewrite (parameterType_named input name type Hname Htype).
        cbn [mbind option_bind]. rewrite Hmap. reflexivity. }
  exists types. split; [done|]. unfold constructorArgs.
  destruct inputs as [|input inputs]; [done|].
  rewrite Hmap. reflexivity.
Qed.

(** The deploy signature, letter by letter. *)
Lemma deployContractDeclaration_text (constructorArgs contractName name : string) :
  deployContractDeclaration constructorArgs (contractName +:+ "$Type") name =
  "export function deployContract(" +:+ nl
  +:+ "    contractName: " +:+ quoted name +:+ "," +:+ nl
  +:+ "    " +:+ constructorArgs +:+ "," +:+ nl
  +:+ "    config?: DeployContractConfig" +:+ nl
  +:+ "  ): Promise<GetContractReturnType<" +:+ (contractName +:+ "$Type")
  +:+ "[" +:+ quoted "abi" +:+ "]>>;".
Proof. reflexivity. Qed.

(** C1. The constructor is the first entry of the ABI whose type is
    [constructor]. When it has no input, every deploy signature of the
    generated text has the optional argument list [constructorArgs?: []]; when
    it has inputs, the list is required and holds one element type per input,
    printed from the name and the type of that input, in the order of the
    inputs. The signature is declared for every name the declaration is
    for. *)
Theorem deploy_signature_arguments (artifact : json) (isDup : bool)
    (contractName sourceName : string) (before after : list json) (entry : json)
    (inputs : list json) :
  prop "contractName" artifact = Some (JStr contractName) →
  prop "sourceName" artifact = Some (JStr sourceName) →
  prop "abi" artifact = Some (JArr (before ++ entry :: after)) →
  Forall (λ e, e ≠ JNull ∧ prop "type" e ≠ Some (JStr "constructor")) before →
  prop "type" entry = Some (JStr "constructor") →
  prop "inputs" entry = Some (JArr inputs) →
  Forall (λ input, is_Some (prop "name" input) ∧ is_Some (prop "type" input)) inputs →
  ∃ (text : string) (elementTypes : list string),
    generateContractDeclaration artifact isDup = Some text
    ∧ Forall2
        (λ input elementType,
           ∃ name type : json,
             prop "name" input = Some name ∧ prop "type" input = Some type
             ∧ elementType =
               "AbiParameterToPrimitiveType<"
               +:+ JSON_stringify (JObj [("name", name); ("type", type)]) +:+ ">")
        inputs elementTypes
    ∧ ∀ name : string,
        name ∈ (if isDup then [getFullyQualifiedName sourceName contractName]
                else [contractName; getFullyQualifiedName sourceName contractName]) →
        occurs_in
          ("export function deployContract(" +:+ nl
           +:+ "    contractName: " +:+ quoted name +:+ "," +:+ nl
           +:+ "    "
           +:+ match inputs with
               | [] => "constructorArgs?: []"
               | _ => "constructorArgs: [" +:+ join ", " elementTypes +:+ "]"
               end
           +:+ "," +:+ nl
           +:+ "    config?: DeployContractConfig" +:+ nl
           +:+ "  ): Promise<GetContractReturnType<" +:+ (contractName +:+ "$Type")
           +:+ "[" +:+ quoted "abi" +:+ "]>>;")
          text.
Proof.
  intros Hname Hsource Habi Hbefore Hentry Hinputs Hnamed.
  destruct (constructorArgs_named inputs Hnamed) as (elementTypes & Htypes & Hargs).
  assert (Hci : constructorInputs artifact = Some inputs).
  { unfold constructorInputs. rewrite (array_prop_Some _ _ _ Habi). cbn [mbind option_bind].
    rewrite (find_constructor_first before after entry Hbefore Hentry). cbn [mbind option_bind].
    by apply array_prop_Some. }
  eexists _, elementTypes. split.
  { eapply (generateContractDeclaration_text artifact isDup contractName sourceName);
      [by apply string_prop_Some | by apply string_prop_Some | done | exact Hargs]. }
  split; [done|]. intros name Hin.
  rewrite <- deployContractDeclaration_text.
  apply deployContractDeclaration_occurs. unfold validNames. by destruct isDup.
Qed.

Lemma deploy_signature_arguments_witness :
  ∃ text : string,
    generateContractDeclaration Examples.token false = Some text
    ∧ occurs_in
        ("export function deployContract(" +:+ nl
         +:+ "    contractName: " +:+ dq +:+ "Token" +:+ dq +:+ "," +:+ nl
         +:+ "    constructorArgs: [AbiParameterToPrimitiveType<{"
         +:+ dq +:+ "name" +:+ dq +:+ ":" +:+ dq +:+ "supply" +:+ dq +:+ ","
         +:+ dq +:+ "type" +:+ dq +:+ ":" +:+ dq +:+ "uint256" +:+ dq
         +:+ "}>, AbiParameterToPrimitiveType<{"
         +:+ dq +:+ "name" +:+ dq +:+ ":" +:+ dq +:+ "owner" +:+ dq +:+ ","
         +:+ dq +:+ "type" +:+ dq +:+ ":" +:+ dq +:+ "address" +:+ dq
         +:+ "}>]," +:+ nl
         +:+ "    config?: DeployContractConfig" +:+ nl
         +:+ "  ): Promise<GetContractReturnType<Token$Type[" +:+ dq +:+ "abi" +:+ dq +:+ "]>>;")
        text.
Proof.
  destruct (deploy_signature_arguments Examples.token false "Token" "contracts/Token.sol"
              [] [Examples.functionEntry "totalSupply"]
              (Examples.constructorEntry
                 [Examples.parameter "supply" "uint256"; Examples.parameter "owner" "address"])
              [Examples.parameter "supply" "uint256"; Examples.parameter "owner" "address"])
    as (text & elementTypes & Hgen & Htypes & Hsignature).
  - reflexivity.
  - reflexivity.
  - reflexivity.
  - constructor.
  - reflexivity.
  - reflexivity.
  - repeat constructor; by eexists.
  - exists text. split; [exact Hgen|].
    apply Forall2_cons_inv_l in Htypes
      as (t1 & rest1 & (n1 & ty1 & Hn1 & Hty1 & ->) & Htypes & ->).
    apply Forall2_cons_inv_l in Htypes
      as (t2 & rest2 & (n2 & ty2 & Hn2 & Hty2 & ->) & Htypes & ->).
    apply Forall2_nil_inv_l in Htypes as ->.
    injection Hn1 as <-. injection Hty1 as <-. injection Hn2 as <-. injection Hty2 as <-.
    exact (Hsignature "Token" (list_elem_of_here _ _)).
Defined.

(** C10. An artifact whose ABI holds no entry of type [constructor] is
    treated as one whose constructor takes no parameter: the inputs are the
    empty list, every deploy signature of the generated text has the optional
    argument list [constructorArgs?: []], and the import of the types is the
    one without [AbiParameterToPrimitiveType]. *)
Theorem no_constructor_entry (artifact : json) (isDup : bool)
    (contractName sourceName : string) (abi : list json) :
  prop "contractName" artifact = Some (JStr contractName) →
  prop "sourceName" artifact = Some (JStr sourceName) →
  prop "abi" artifact = Some (JArr abi) →
  Forall (λ e, e ≠ JNull ∧ prop "type" e ≠ Some (JStr "constructor")) abi →
  ∃ text : string,
    constructorInputs artifact = Some []
    ∧ generateContractDeclaration artifact isDup = Some text
    ∧ (∀ name : string,
         name ∈ (if isDup then [getFullyQualifiedName sourceName contractName]
                 else [contractName; getFullyQualifiedName sourceName contractName]) →
         occurs_in
           ("export function deployContract(" +:+ nl
            +:+ "    contractName: " +:+ quoted name +:+ "," +:+ nl
            +:+ "    constructorArgs?: []," +:+ nl
            +:+ "    config?: DeployContractConfig" +:+ nl
            +:+ "  ): Promise<GetContractReturnType<" +:+ (contractName +:+ "$Type")
            +:+ "[" +:+ quoted "abi" +:+ "]>>;")
           text)
    ∧ occurs_in
        (nl +:+ "import type { GetContractReturnType } from "
         +:+ quoted "@nomicfoundation/hardhat-viem/types" +:+ ";" +:+ nl)
        text.
Proof.
  intros Hname Hsource Habi Hnone.
  assert (Hinputs : constructorInputs artifact = Some []).
  { unfold constructorInputs. rewrite (array_prop_Some _ _ _ Habi). cbn [mbind option_bind].
    by rewrite (find_constructor_none abi Hnone). }
  eexists. split; [done|]. split.
  { eapply (generateContractDeclaration_text artifact isDup contractName sourceName);
      [by apply string_prop_Some | by apply string_prop_Some | done | reflexivity]. }
  split.
  - intros name Hin.
    change ("    constructorArgs?: []," +:+ ?rest)
      with ("    " +:+ "constructorArgs?: []" +:+ "," +:+ rest).
    rewrite <- deployContractDeclaration_text.
    apply deployContractDeclaration_occurs. unfold validNames. by destruct isDup.
  - unfold declarationText.
    change (typesImport [])
      with ("import type { GetContractReturnType } from "
            +:+ quoted "@nomicfoundation/hardhat-viem/types" +:+ ";").
    do 6 apply occurs_in_app_l.
    exists EmptyString. eexists. rewrite !append_assoc. reflexivity.
Qed.

Lemma no_constructor_entry_witness :
  ∃ text : string,
    constructorInputs Examples.counter = Some []
    ∧ generateContractDeclaration Examples.counter true = Some text
    ∧ occurs_in
        ("export function deployContract(" +:+ nl
         +:+ "    contractName: " +:+ dq +:+ "contracts/Counter.sol:Counter" +:+ dq +:+ "," +:+ nl
         +:+ "    constructorArgs?: []," +:+ nl
         +:+ "    config?: DeployContractConfig" +:+ nl
         +:+ "  ): Promise<GetContractReturnType<Counter$Type[" +:+ dq +:+ "abi" +:+ dq +:+ "]>>;")
        text.
Proof.
  destruct (no_constructor_entry Examples.counter true "Counter" "contracts/Counter.sol"
              [Examples.functionEntry "count"])
    as (text & Hinputs & Hgen & Hsignature & _).
  - reflexivity.
  - reflexivity.
  - reflexivity.
  - repeat constructor; discriminate.
  - exists text. split; [exact Hinputs|]. split; [exact Hgen|].
    exact (Hsignature "contracts/Counter.sol:Counter" (list_elem_of_here _ _)).
Defined.

Lemma append_inj_r (s t suffix : string) : s +:+ suffix = t +:+ suffix → s = t.
Proof.
  revert t. induction s as [|c s IH]; intros [|d t] Heq; [done | | |].
  - apply (f_equal String.length) in Heq.
    rewrite !length_append in Heq. simpl in Heq. lia.
  - apply (f_equal String.length) in Heq.
    rewrite !length_append in Heq. simpl in Heq. lia.
  - rewrite !append_cons in Heq. injection Heq as -> Heq. f_equal. by apply IH.
Qed.

(** The global aggregate marks exactly the names the filter keeps. *)
Lemma neverEntries_elem (contractNames : list string) (name : string) :
  name +:+ ": never;" ∈ neverEntries contractNames ↔ name ∈ dupContractNames contractNames.
Proof.
  unfold neverEntries, dupContractNames. split.
  - intros Hin. apply list_elem_of_In, in_map_iff in Hin as (x & Heq & Hx).
    apply append_inj_r in Heq as ->. by apply list_elem_of_In.
  - intros Hin. apply list_elem_of_In, in_map_iff. exists name.
    split; [done | by apply list_elem_of_In].
Qed.

(** A marked name is printed in the global aggregate. *)
Lemma neverEntry_occurs (contractNames : list string) (entry : string) :
  entry ∈ neverEntries contractNames →
  occurs_in entry (generateArtifactsDefinition contractNames).
Proof.
  intros Hin. unfold generateArtifactsDefinition.
  repeat lazymatch goal with
         | |- occurs_in _ (join _ (neverEntries _) +:+ _) => fail
         | |- occurs_in _ (_ +:+ _) => apply occurs_in_app_l
         end.
  by apply occurs_in_app_r, occurs_in_join.
Qed.






End Generator.

(** ** Facts about the notifier's monad and its lanes *)

Module NotifierFacts.
Import JS Notifier.

Lemma cacheFromFile_written (cache : VersionNotifierCache) :
  cacheFromFile (Some (cache_to_json cache)) =
  {| lastCheck := lastCheck cache; v3TimesShown := v3TimesShown cache;
     v3Release := None; v3ReleaseMessage := None |}.
Proof. destruct cache as [[s|] n r m]; reflexivity. Qed.

Lemma io_eta (io : Io) : {| trace := trace io; cacheFile := cacheFile io |} = io.
Proof. by destruct io. Qed.

(** Lane 1 appends its notice, touches nothing else and does not throw. *)
Lemma notifyNewRelease_run (P : Platform) (w : World) (latest : option Release) (io : Io) :
  notifyNewRelease P w latest io =
  (Some tt, {| trace := trace io ++ newReleaseEvents P w latest; cacheFile := cacheFile io |}).
Proof.
  unfold newReleaseEvents, notifyNewRelease. unfold_monad.
  repeat case_match; simpl; by rewrite ?app_nil_r, ?io_eta.
Qed.

Lemma getV3ReleaseMessage_run (P : Platform) (w : World) (r : Release) (io : Io) :
  getV3ReleaseMessage w r io =
  ((getV3ReleaseMessage w r {| trace := []; cacheFile := None |}).1,
   {| trace := trace io ++ trace (getV3ReleaseMessage w r {| trace := []; cacheFile := None |}).2;
      cacheFile := cacheFile io |}).
Proof.
  unfold getV3ReleaseMessage. unfold_monad.
  repeat case_match; simpl; by rewrite ?app_nil_r, ?io_eta.
Qed.

Lemma getV3ReleaseMessage_Some (P : Platform) (w : World) (r : Release) (io : Io) :
  is_Some (getV3ReleaseMessage w r io).1.
Proof. unfold getV3ReleaseMessage. unfold_monad. by repeat case_match. Qed.

(** Lane 2, on a release whose tag was read, appends its events, touches
    nothing else and does not throw. *)
Lemma notifyV3Release_run (P : Platform) (w : World) (cache : VersionNotifierCache)
    (v3 : option Release) (io : Io) :
  notifyV3Release P w cache v3 io =
  (Some (v3Outcome P w cache v3).1,
   {| trace := trace io ++ (v3Outcome P w cache v3).2; cacheFile := cacheFile io |}).
Proof.
  unfold v3Outcome, notifyV3Release. unfold_monad.
  destruct v3 as [r|]; [|simpl; by rewrite app_nil_r, io_eta].
  destruct (version_of_tag P (tag_name r)); [|simpl; by rewrite app_nil_r, io_eta].
  destruct (v3TimesShown cache <? V3_RELEASE_MAX_TIMES_SHOWN);
    [|simpl; by rewrite app_nil_r, io_eta].
  destruct (v3ReleaseMessage cache) as [m|]; simpl.
  - done.
  - rewrite (getV3ReleaseMessage_run P w r io).
    destruct (getV3ReleaseMessage_Some P w r {| trace := []; cacheFile := None |}) as [m Hm].
    destruct (getV3ReleaseMessage w r {| trace := []; cacheFile := None |}) as [m' io'].
    simpl in Hm. subst m'. destruct m as [m|]; simpl; by rewrite <- ?app_assoc.
Qed.

#[local] Arguments notifyNewRelease : simpl never.
#[local] Arguments notifyV3Release : simpl never.

(** The list an array of releases, or a failed request, leads to. *)
Lemma sort_releases_nil (P : Platform) : sort_releases P [] = [].
Proof. reflexivity. Qed.

(** One invocation, in closed form. *)
Lemma invoke_unfold (P : Platform) (w : World) (file : option json) :
  invoke P w file =
  let cache := cacheFromFile file in
  if checkedRecently P w cache then ([], file)
  else if listBodyThrows w then ([RequestReleases; UncaughtTypeError], file)
  else if v3BodyThrows w then
    ([RequestReleases; RequestV3Release] ++ newReleaseEvents P w (latestV2Release P w)
     ++ [UncaughtTypeError], file)
  else
    match latestV2Release P w, fetchedV3Release w with
    | None, None => ([RequestReleases; RequestV3Release], file)
    | latest, v3 =>
        let out := v3Outcome P w cache v3 in
        let content :=
          cache_to_json
            {| lastCheck := Some (Date_toISOString P (now w));
               v3TimesShown := v3TimesShown out.1;
               v3Release := v3;
               v3ReleaseMessage := v3ReleaseMessage out.1 |} in
        ([RequestReleases; RequestV3Release] ++ newReleaseEvents P w latest ++ out.2
         ++ [WriteCache content],
         if cacheWritable w then Some content else file)
    end.
Proof.
  unfold invoke, showNewVersionNotification, readCache, getReleases, getV3Release,
    releaseWithTag, writeCache.
  unfold latestV2Release, fetchedV3Release, listBodyThrows, v3BodyThrows.
  unfold_monad. cbv zeta. simpl.
  destruct (checkedRecently P w (cacheFromFile file)); [done|].
  assert (Hv3 : Notifier.v3Release (cacheFromFile file) = None).
  { destruct file as [[]|]; reflexivity. }
  rewrite Hv3.
  destruct (releasesResponse w) as [| |releases]; simpl; [|done|].
  all: try match goal with
           | |- context [latestV2ReleaseOf ?P0 ?l] =>
               destruct (latestV2ReleaseOf P0 l) as [latest|]
           end.
  all: destruct (v3ReleaseResponse w) as [| | |r]; simpl; try done.
  all: rewrite ?notifyNewRelease_run; simpl; try done.
  all: rewrite ?notifyV3Release_run; simpl.
  all: by rewrite <- ?app_assoc, ?app_nil_r.
Qed.






Lemma listBodyThrows_true (w : World) :
  listBodyThrows w = true ↔ releasesResponse w = ReleasesNotArray.
Proof. unfold listBodyThrows. by destruct (releasesResponse w). Qed.

Lemma listBodyThrows_false (w : World) :
  listBodyThrows w = false ↔ releasesResponse w ≠ ReleasesNotArray.
Proof. unfold listBodyThrows. by destruct (releasesResponse w). Qed.

Lemma v3BodyThrows_true (w : World) :
  v3BodyThrows w = true ↔ v3ReleaseResponse w = V3NotARelease.
Proof. unfold v3BodyThrows. by destruct (v3ReleaseResponse w). Qed.


(** Lane 1 neither writes the cache nor throws. *)
Lemma newReleaseEvents_quiet (P : Platform) (w : World) (latest : option Release) :
  Forall (λ e, (∀ content, e ≠ WriteCache content) ∧ e ≠ UncaughtTypeError)
    (newReleaseEvents P w latest).
Proof.
  unfold newReleaseEvents, notifyNewRelease. unfold_monad.
  repeat case_match; simpl; repeat constructor; done.
Qed.

(** Lane 2 neither writes the cache nor throws. *)
Lemma v3Outcome_quiet (P : Platform) (w : World) (cache : VersionNotifierCache)
    (v3 : option Release) :
  Forall (λ e, (∀ content, e ≠ WriteCache content) ∧ e ≠ UncaughtTypeError)
    (v3Outcome P w cache v3).2.
Proof.
  unfold v3Outcome, notifyV3Release, getV3ReleaseMessage. unfold_monad.
  repeat case_match; simplify_eq; simpl; repeat constructor; done.
Qed.

End NotifierFacts.

(** ** The version notifier *)

Module NotifierProps.
Import JS Notifier NotifierFacts.

(** X2. The pinned release is requested exactly when the guard lets the
    invocation through and the answer to the request of the release list is
    not a JSON value other than an array (on which the sort throws): whatever
    the cache file holds, the cache read from it never has a descriptor. *)
Theorem v3Release_requested (P : Platform) (w : World) (file : option json) :
  RequestV3Release ∈ (invoke P w file).1 ↔
  checkedRecently P w (cacheFromFile file) = false
  ∧ releasesResponse w ≠ ReleasesNotArray.
Proof.
  rewrite invoke_unfold. cbv zeta.
  destruct (checkedRecently P w (cacheFromFile file)).
  { split; [by intros ?%elem_of_nil | by intros [? _]]. }
  destruct (listBodyThrows w) eqn:Hlist.
  { apply listBodyThrows_true in Hlist. split; [|by intros [_ ?]].
    intros Hin. repeat (apply elem_of_cons in Hin as [Hin|Hin]; [done|]).
    by apply elem_of_nil in Hin. }
  apply listBodyThrows_false in Hlist.
  split; [done|]. intros _.
  destruct (v3BodyThrows w); [set_solver|].
  destruct (latestV2Release P w), (fetchedV3Release w); simpl; set_solver.
Qed.

Lemma v3Release_requested_witness :
  RequestV3Release
  ∈ (invoke Sample.platform (Runs.online Runs.nov2) (Some Runs.cacheFileWithRelease)).1.
Proof. apply v3Release_requested. split; [reflexivity | discriminate]. Defined.

(** C5, as amended. When less than one day has passed since [lastCheck], the
    invocation returns at once: no request, no notice, the cache file as it
    was. From exactly one day on the guard is not active, and the invocation
    starts with the request of the release list. *)
Theorem guard_is_strict (P : Platform) (w : World) (file : option json) (t : Z) :
  lastCheckTime P (cacheFromFile file) = Some t →
  (now w - t < oneDay → invoke P w file = ([], file))
  ∧ (oneDay <= now w - t → ∃ rest : list event, (invoke P w file).1 = RequestReleases :: rest).
Proof.
  intros Ht. rewrite invoke_unfold. cbv zeta. unfold checkedRecently. rewrite Ht.
  fold oneDay. split; intros Hcmp.
  - apply Z.ltb_lt in Hcmp. by rewrite Hcmp.
  - apply Z.ltb_ge in Hcmp. rewrite Hcmp.
    destruct (listBodyThrows w); [simpl; eauto|].
    destruct (v3BodyThrows w); [simpl; eauto|].
    destruct (latestV2Release P w), (fetchedV3Release w); simpl; eauto.
Qed.

Lemma guard_is_strict_witness :
  invoke Sample.platform (Runs.online Runs.nov2)
    (Some (Runs.cacheFileOf "2026-11-01T00:00:00.001Z" 0))
  = ([], Some (Runs.cacheFileOf "2026-11-01T00:00:00.001Z" 0)).
Proof.
  apply (guard_is_strict Sample.platform (Runs.online Runs.nov2)
           (Some (Runs.cacheFileOf "2026-11-01T00:00:00.001Z" 0)) 1793491200001).
  - reflexivity.
  - reflexivity.
Defined.

(** C5, as stated, fails: exactly one day after [lastCheck] the guard is
    not active and both releases are requested. *)
Lemma guard_inactive_after_exactly_one_day :
  lastCheckTime Sample.platform
    (cacheFromFile (Some (Runs.cacheFileOf "2026-11-01T00:00:00.000Z" 0))) = Some Runs.nov1
  ∧ now (Runs.offline Runs.nov2) - Runs.nov1 = 1000 * 60 * 60 * 24
  ∧ (invoke Sample.platform (Runs.offline Runs.nov2)
       (Some (Runs.cacheFileOf "2026-11-01T00:00:00.000Z" 0))).1
    = [RequestReleases; RequestV3Release].
Proof. repeat split; reflexivity. Qed.




(** C4 fails on the code: the cache file holds the descriptor of the pinned
    release, written by an earlier invocation, and the invocation requests
    the pinned release all the same (and its message, which the file holds
    too). *)
Theorem cached_release_requested_again :
  prop "v3Release" Runs.cacheFileWithRelease = Some (release_to_json Runs.hardhat3)
  ∧ List.filter is_request
      (invoke Sample.platform (Runs.online Runs.nov2) (Some Runs.cacheFileWithRelease)).1
    = [RequestReleases; RequestV3Release;
       RequestAsset "https://example.org/version-notifier-message.txt"].
Proof. split; reflexivity. Qed.



Lemma invocations_cons (P : Platform) (w : World) (ws : list World) (file : option json) :
  invocations P (w :: ws) file =
  ((invoke P w file).1 :: (invocations P ws (invoke P w file).2).1,
   (invocations P ws (invoke P w file).2).2).
Proof.
  cbn [invocations]. destruct (invoke P w file) as [events next]. cbn [fst snd].
  by destruct (invocations P ws next).
Qed.



End NotifierProps.

(** ** The stale-output pruner *)

Module Pruner.
Import JS ContractNames Tasks.

(** Without a file whose path ends in [file.d.ts], the pruner removes
    nothing. *)
Lemma removeObsoleteArtifacts_nothing_found (h : Host) (fs : gmap path string) :
  is_Some (mapM parseFullyQualifiedName (fullyQualifiedNames h)) →
  getAllFilesMatching (paths_artifacts h) (fun f => endsWith f "file.d.ts") fs = [] →
  removeObsoleteArtifacts h fs = Some fs.
Proof.
  intros [parsed Hparsed] Hnone. unfold removeObsoleteArtifacts.
  rewrite Hparsed. cbn [mbind option_bind]. by rewrite Hnone.
Qed.

Lemma rm_lookup (dir p : path) (fs : gmap path string) (content : string) :
  rm dir fs !! p = Some content ↔ fs !! p = Some content ∧ ¬ dir `prefix_of` p.
Proof. unfold rm. by rewrite map_lookup_filter_Some. Qed.

Lemma getAllFilesMatching_elem (dir f : path) (matches : string -> bool)
    (fs : gmap path string) :
  f ∈ getAllFilesMatching dir matches fs ↔
  is_Some (fs !! f) ∧ dir `prefix_of` f ∧ matches (path_to_string f) = true.
Proof.
  unfold getAllFilesMatching.
  rewrite list_elem_of_In, filter_In, <- list_elem_of_In, andb_true_iff, bool_decide_eq_true.
  rewrite list_elem_of_fmap. split.
  - intros [([p c] & -> & Hin%elem_of_map_to_list) [? ?]]. simpl in *. eauto.
  - intros ([c Hc] & ? & ?). split; [|done]. exists (f, c). split; [done|].
    by apply elem_of_map_to_list.
Qed.

(** What the loop of the pruner leaves: the files that are not at or below
    the directory of a listed file whose source is not valid. *)
Lemma prune_lookup (root : path) (sources : gset string) (files : list path)
    (fs : gmap path string) (p : path) (content : string) :
  foldl (removeIfObsolete root sources) fs files !! p = Some content ↔
  fs !! p = Some content
  ∧ Forall (λ f, relative root (dirname f) ∈ sources ∨ ¬ dirname f `prefix_of` p) files.
Proof.
  revert fs. induction files as [|f files IH]; intros fs; simpl.
  - split; [by intros ? | by intros [? _]].
  - rewrite IH, Forall_cons.
    assert (Hstep : removeIfObsolete root sources fs f !! p = Some content ↔
                    fs !! p = Some content
                    ∧ (relative root (dirname f) ∈ sources ∨ ¬ dirname f `prefix_of` p)).
    { unfold removeIfObsolete. case_bool_decide as Hvalid; [tauto|].
      rewrite rm_lookup. tauto. }
    rewrite Hstep. tauto.
Qed.

(** X1. The pruner on its own. When the fully qualified names parse, the action
    does not raise, and a file is still there afterwards exactly when it was
    there before and every file below the artifacts directory whose path ends
    in [file.d.ts], and whose directory holds it, is in the directory of a
    valid source name. *)
Theorem pruner_removes_marked_directories (h : Host) (fs : gmap path string)
    (parsed : list ParsedName) :
  mapM parseFullyQualifiedName (fullyQualifiedNames h) = Some parsed →
  ∃ fs' : gmap path string,
    removeObsoleteArtifacts h fs = Some fs'
    ∧ ∀ (p : path) (content : string),
        fs' !! p = Some content ↔
        fs !! p = Some content
        ∧ ∀ marker : path,
            is_Some (fs !! marker) →
            paths_artifacts h `prefix_of` marker →
            endsWith (path_to_string marker) "file.d.ts" = true →
            dirname marker `prefix_of` p →
            ∃ name : ParsedName,
              name ∈ parsed
              ∧ sourceName name = relative (paths_artifacts h) (dirname marker).
Proof.
  intros Hparsed. unfold removeObsoleteArtifacts. rewrite Hparsed. cbn [mbind option_bind].
  eexists. split; [done|]. intros p content.
  rewrite prune_lookup, Forall_forall.
  apply and_iff_compat_l. split.
  - intros Hall marker Hfile Hroot Hends Hprefix.
    destruct (Hall marker) as [Hvalid|Hnot]; [| |done].
    + by apply getAllFilesMatching_elem.
    + apply elem_of_list_to_set, list_elem_of_In, in_map_iff in Hvalid as (name & Hname & Hin).
      exists name. split; [by apply list_elem_of_In | done].
  - intros Hall marker (Hfile & Hroot & Hends)%getAllFilesMatching_elem.
    destruct (decide (dirname marker `prefix_of` p)) as [Hprefix|]; [left | by right].
    destruct (Hall marker Hfile Hroot Hends Hprefix) as (name & Hin & Hname).
    apply elem_of_list_to_set, list_elem_of_In, in_map_iff.
    exists name. split; [done | by apply list_elem_of_In].
Qed.

Lemma pruner_removes_marked_directories_witness :
  ∃ fs' : gmap path string,
    removeObsoleteArtifacts Examples.hostXY Examples.markedFs = Some fs'
    ∧ fs' !! ["project"; "artifacts"; "contracts"; "X.sol"; "X.d.ts"] = Some "x"
    ∧ fs' !! ["project"; "artifacts"; "contracts"; "W.sol"; "W.d.ts"] = None.
Proof.
  destruct (pruner_removes_marked_directories Examples.hostXY Examples.markedFs
              [ {| sourceName := "contracts/X.sol"; contractName := "X" |};
                {| sourceName := "contracts/Y.sol"; contractName := "Y" |} ])
    as (fs' & Hrun & Hfiles).
  - reflexivity.
  - exists fs'. split; [exact Hrun|]. split.
    + apply Hfiles. split; [reflexivity|].
      intros marker [content Hmarker] _ Hends Hprefix.
      unfold Examples.markedFs in Hmarker.
      repeat (apply lookup_insert_Some in Hmarker as [[<- _]|[_ Hmarker]]);
        try apply lookup_singleton_Some in Hmarker as [<- _];
        try discriminate Hends.
      * exists {| sourceName := "contracts/X.sol"; contractName := "X" |}.
        split; [apply list_elem_of_here | reflexivity].
      * apply prefix_length in Hprefix as Hlen.
        destruct Hprefix as [k Hk]. simpl in Hk. discriminate Hk.
    + destruct (fs' !! _) as [content|] eqn:Hlookup; [exfalso | reflexivity].
      apply Hfiles in Hlookup as [_ Hvalid].
      destruct (Hvalid ["project"; "artifacts"; "contracts"; "W.sol"; "file.d.ts"])
        as (name & Hin & Hname).
      * by eexists.
      * by exists ["contracts"; "W.sol"; "file.d.ts"].
      * reflexivity.
      * by exists ["W.d.ts"].
      * simpl in Hname.
        apply elem_of_cons in Hin as [->|Hin]; [discriminate Hname|].
        apply elem_of_cons in Hin as [->|Hin]; [discriminate Hname|].
        by apply elem_of_nil in Hin.
Defined.

(** C8 fails on the code: the emit sub-task writes [Z.d.ts] and
    [artifacts.d.ts] into the directory of [contracts/Z.sol], the pruner
    looks for files whose path ends in [file.d.ts], and so, once
    [contracts/Z.sol] is gone from the valid sources, its directory is not
    found and stays, with every file in it. *)
Theorem obsolete_directory_not_removed :
  emitArtifacts Examples.hostXYZ Examples.emittedXYZ ∅ = Some Examples.generated
  ∧ (map_to_list Examples.generated).*1 ≡ₚ
      [ ["project"; "artifacts"; "contracts"; "X.sol"; "X.d.ts"];
        ["project"; "artifacts"; "contracts"; "X.sol"; "artifacts.d.ts"];
        ["project"; "artifacts"; "contracts"; "Y.sol"; "Y.d.ts"];
        ["project"; "artifacts"; "contracts"; "Y.sol"; "artifacts.d.ts"];
        ["project"; "artifacts"; "contracts"; "Z.sol"; "Z.d.ts"];
        ["project"; "artifacts"; "contracts"; "Z.sol"; "artifacts.d.ts"] ]
  ∧ getAllFilesMatching ["project"; "artifacts"] (fun f => endsWith f "file.d.ts")
      Examples.generated = []
  ∧ removeObsoleteArtifacts Examples.hostXY Examples.generated = Some Examples.generated.
Proof.
  assert (Hfound : getAllFilesMatching ["project"; "artifacts"]
                     (fun f => endsWith f "file.d.ts") Examples.generated = []).
  { vm_compute; reflexivity. }
  split.
  { unfold Examples.generated.
    assert (Hsome : match emitArtifacts Examples.hostXYZ Examples.emittedXYZ ∅ with
                    | Some _ => true
                    | None => false
                    end = true) by (vm_compute; reflexivity).
    by destruct (emitArtifacts _ _ _). }
  split.
  { assert (Hkeys : (map_to_list Examples.generated).*1 =
                    [ ["project"; "artifacts"; "contracts"; "Z.sol"; "artifacts.d.ts"];
                      ["project"; "artifacts"; "contracts"; "Y.sol"; "artifacts.d.ts"];
                      ["project"; "artifacts"; "contracts"; "X.sol"; "artifacts.d.ts"];
                      ["project"; "artifacts"; "contracts"; "Z.sol"; "Z.d.ts"];
                      ["project"; "artifacts"; "contracts"; "Y.sol"; "Y.d.ts"];
                      ["project"; "artifacts"; "contracts"; "X.sol"; "X.d.ts"] ])
      by (vm_compute; reflexivity).
    rewrite Hkeys. solve_Permutation. }
  split; [done|].
  apply removeObsoleteArtifacts_nothing_found; [by eexists | done].
Qed.

End Pruner.

(** ** More about the notifier *)

Module NotifierMore.
Import JS Notifier NotifierFacts Notions.
#[local] Set Warnings "-clear-no-such-hyp".

Lemma cacheFromFile_fresh (file : option json) :
  Notifier.v3Release (cacheFromFile file) = None
  ∧ v3ReleaseMessage (cacheFromFile file) = None.
Proof. destruct file as [[]|]; by split. Qed.

(** What lane 1 adds. *)
Lemma newReleaseEvents_cases (P : Platform) (w : World) (latest : option Release) :
  newReleaseEvents P w latest =
  match latest with
  | Some r =>
      match version_of_tag P (tag_name r) with
      | Some v =>
          if semver_gt P v (hardhatVersion w)
          then [LogNewRelease (boxen P (newReleaseText P (hardhatVersion w) v))]
          else []
      | None => []
      end
  | None => []
  end.
Proof.
  unfold newReleaseEvents, notifyNewRelease. unfold_monad.
  repeat case_match; reflexivity.
Qed.

(** What lane 2 adds and returns, from a cache without a message. *)
Lemma v3Outcome_cases (P : Platform) (w : World) (cache : VersionNotifierCache)
    (v3 : option Release) :
  v3ReleaseMessage cache = None →
  v3Outcome P w cache v3 =
  match v3 with
  | Some r =>
      match version_of_tag P (tag_name r) with
      | Some _ =>
          if v3TimesShown cache <? V3_RELEASE_MAX_TIMES_SHOWN then
            match find (fun a => String.eqb (asset_name a) V3_RELEASE_VERSION_NOTIFIER_ASSET_NAME)
                    (assets r) with
            | Some a =>
                match assetResponse w (browser_download_url a) with
                | Some m =>
                    ({| lastCheck := lastCheck cache; v3TimesShown := v3TimesShown cache + 1;
                        v3Release := Notifier.v3Release cache; v3ReleaseMessage := Some m |},
                     [RequestAsset (browser_download_url a); LogV3Message (boxen P m)])
                | None => (cache, [RequestAsset (browser_download_url a)])
                end
            | None => (cache, [])
            end
          else (cache, [])
      | None => (cache, [])
      end
  | None => (cache, [])
  end.
Proof.
  intros Hmsg. unfold v3Outcome, notifyV3Release, getV3ReleaseMessage. unfold_monad.
  rewrite Hmsg. destruct cache as [lc n r0 m0]. simpl in Hmsg. subst m0.
  repeat case_match; simplify_eq; reflexivity.
Qed.


(** X3. The notice of the stable line is printed exactly when the guard lets
    the invocation through, the body of the release list is not a JSON value
    other than an array, a stable release is found, the second piece of its
    tag is a valid version and that version is greater than the running one.
    The text is the boxed message that names the running version, the new
    version and its changelog. *)
Theorem new_release_notice_iff (P : Platform) (w : World) (file : option json) (text : string) :
  LogNewRelease text ∈ (invoke P w file).1 ↔
  checkedRecently P w (cacheFromFile file) = false
  ∧ releasesResponse w ≠ ReleasesNotArray
  ∧ ∃ (r : Release) (packageName packageVersion v : string) (rest : list string),
      latestV2Release P w = Some r
      ∧ split "@" (tag_name r) = packageName :: packageVersion :: rest
      ∧ semver_valid P packageVersion = Some v
      ∧ semver_gt P v (hardhatVersion w) = true
      ∧ text =
        boxen P
          ("New Hardhat release available! " +:+ chalk_red P (hardhatVersion w)
           +:+ " -> " +:+ chalk_green P v +:+ "." +:+ nl
           +:+ nl
           +:+ "Changelog: https://hardhat.org/release/" +:+ v +:+ nl
           +:+ nl
           +:+ "Run " +:+ quoted "npm install hardhat@latest" +:+ " to update.").
Proof.
  rewrite invoke_unfold. cbv zeta.
  destruct (cacheFromFile_fresh file) as [_ Hmsg].
  destruct (checkedRecently P w (cacheFromFile file)).
  { split; [by intros ?%elem_of_nil | by intros [? _]]. }
  destruct (listBodyThrows w) eqn:Hlist.
  { apply listBodyThrows_true in Hlist. split; [|by intros (_ & ? & _)].
    intros Hin. repeat (apply elem_of_cons in Hin as [Hin|Hin]; [done|]).
    by apply elem_of_nil in Hin. }
  apply listBodyThrows_false in Hlist.
  assert (Hlane2 : ∀ v3, LogNewRelease text ∉ (v3Outcome P w (cacheFromFile file) v3).2).
  { intros v3. rewrite (v3Outcome_cases P w _ v3 Hmsg).
    repeat case_match; simpl; set_solver. }
  assert (Hlane1 : LogNewRelease text ∈ newReleaseEvents P w (latestV2Release P w) ↔
                   ∃ (r : Release) (packageName packageVersion v : string) (rest : list string),
                     latestV2Release P w = Some r
                     ∧ split "@" (tag_name r) = packageName :: packageVersion :: rest
                     ∧ semver_valid P packageVersion = Some v
                     ∧ semver_gt P v (hardhatVersion w) = true
                     ∧ text =
                       boxen P
                         ("New Hardhat release available! " +:+ chalk_red P (hardhatVersion w)
                          +:+ " -> " +:+ chalk_green P v +:+ "." +:+ nl
                          +:+ nl
                          +:+ "Changelog: https://hardhat.org/release/" +:+ v +:+ nl
                          +:+ nl
                          +:+ "Run " +:+ quoted "npm install hardhat@latest" +:+ " to update.")).
  { rewrite newReleaseEvents_cases.
    destruct (latestV2Release P w) as [r|];
      [|split; [by intros ?%elem_of_nil | by intros (? & ? & ? & ? & ? & [=] & _)]].
    unfold version_of_tag.
    destruct (split "@" (tag_name r)) as [|packageName [|packageVersion rest]] eqn:Hsplit;
      [split; [by intros ?%elem_of_nil
              | intros (? & ? & ? & ? & ? & [= <-] & ? & _); congruence]..|].
    destruct (semver_valid P packageVersion) as [v|] eqn:Hv.
    2: { split; [by intros ?%elem_of_nil|].
         intros (? & ? & ? & ? & ? & [= <-] & Hsplit' & Hv' & _).
         rewrite Hsplit in Hsplit'. injection Hsplit' as <- <- <-. congruence. }
    destruct (semver_gt P v (hardhatVersion w)) eqn:Hgt.
    - rewrite list_elem_of_singleton. split.
      + intros [= ->]. by exists r, packageName, packageVersion, v, rest.
      + intros (? & ? & ? & v' & ? & [= <-] & Hsplit' & Hv' & _ & ->).
        rewrite Hsplit in Hsplit'. injection Hsplit' as <- <- <-.
        rewrite Hv in Hv'. by injection Hv' as <-.
    - split; [by intros ?%elem_of_nil|].
      intros (? & ? & ? & v' & ? & [= <-] & Hsplit' & Hv' & Hgt' & _).
      rewrite Hsplit in Hsplit'. injection Hsplit' as <- <- <-.
      rewrite Hv in Hv'. injection Hv' as <-. congruence. }
  destruct (v3BodyThrows w).
  { cbn [fst]. rewrite !elem_of_app, !elem_of_cons, !elem_of_nil. split.
    - intros [[|[|]]|[|[|]]]; try done. split; [done|]. split; [done|]. by apply Hlane1.
    - intros (_ & _ & ?). right. left. by apply Hlane1. }
  destruct (latestV2Release P w) as [latest|] eqn:Hlatest,
           (fetchedV3Release w) as [v3|] eqn:Hv3; cbn [fst].
  4: { split; [set_solver | by intros (_ & _ & ? & ? & ? & ? & ? & [=] & _)]. }
  all: rewrite !elem_of_app, !elem_of_cons, elem_of_nil.
  all: specialize (Hlane2 (fetchedV3Release w)); rewrite Hv3 in Hlane2.
  all: split; [intros [[|[|]]|[|[|[|]]]]; try done; by split; [|split; [|apply Hlane1]]
              | intros (_ & _ & ?); right; left; by apply Hlane1].
Qed.

Lemma new_release_notice_iff_witness :
  LogNewRelease
    ("New Hardhat release available! 2.22.0 -> 2.26.3." +:+ nl
     +:+ nl
     +:+ "Changelog: https://hardhat.org/release/2.26.3" +:+ nl
     +:+ nl
     +:+ "Run " +:+ quoted "npm install hardhat@latest" +:+ " to update.")
  ∈ (invoke Sample.platform (Runs.online Runs.nov2)
       (Some (Runs.cacheFileOf "2026-10-31T00:00:00.000Z" 0))).1.
Proof.
  apply new_release_notice_iff. split; [reflexivity|]. split; [discriminate|].
  exists (Runs.release "hardhat@2.26.3" "2025-08-11T00:00:00.000Z"),
    "hardhat", "2.26.3", "2.26.3", [].
  repeat split; reflexivity.
Defined.

(** X4. The notice of the pinned release is printed exactly when the guard lets
    the invocation through, the body of the release list is not a JSON value
    other than an array, the pinned release is found with a valid version as
    the second piece of its tag, the count read from the cache is below 5, the
    release has the asset with the message and its download succeeds. The text
    is the boxed message. *)
Theorem v3_notice_iff (P : Platform) (w : World) (file : option json) (text : string) :
  LogV3Message text ∈ (invoke P w file).1 ↔
  checkedRecently P w (cacheFromFile file) = false
  ∧ releasesResponse w ≠ ReleasesNotArray
  ∧ v3TimesShown (cacheFromFile file) < 5
  ∧ ∃ (r : Release) (a : Asset) (m : string),
      v3ReleaseResponse w = V3Found r
      ∧ (∃ (packageName packageVersion : string) (rest : list string),
           split "@" (tag_name r) = packageName :: packageVersion :: rest
           ∧ is_Some (semver_valid P packageVersion))
      ∧ find (fun a => String.eqb (asset_name a) "version-notifier-message.txt") (assets r)
        = Some a
      ∧ assetResponse w (browser_download_url a) = Some m
      ∧ text = boxen P m.
Proof.
  rewrite invoke_unfold. cbv zeta.
  destruct (cacheFromFile_fresh file) as [_ Hmsg].
  destruct (checkedRecently P w (cacheFromFile file)).
  { split; [by intros ?%elem_of_nil | by intros [? _]]. }
  destruct (listBodyThrows w) eqn:Hlist.
  { apply listBodyThrows_true in Hlist. split; [|by intros (_ & ? & _)].
    intros Hin. repeat (apply elem_of_cons in Hin as [Hin|Hin]; [done|]).
    by apply elem_of_nil in Hin. }
  apply listBodyThrows_false in Hlist.
  assert (Hlane1 : ∀ latest, LogV3Message text ∉ newReleaseEvents P w latest).
  { intros latest. rewrite newReleaseEvents_cases. repeat case_match; set_solver. }
  assert (Hlane2 : LogV3Message text ∈ (v3Outcome P w (cacheFromFile file) (fetchedV3Release w)).2 ↔
                   v3TimesShown (cacheFromFile file) < 5
                   ∧ ∃ (r : Release) (a : Asset) (m : string),
                       v3ReleaseResponse w = V3Found r
                       ∧ (∃ (packageName packageVersion : string) (rest : list string),
                            split "@" (tag_name r) = packageName :: packageVersion :: rest
                            ∧ is_Some (semver_valid P packageVersion))
                       ∧ find (fun a => String.eqb (asset_name a) "version-notifier-message.txt")
                           (assets r) = Some a
                       ∧ assetResponse w (browser_download_url a) = Some m
                       ∧ text = boxen P m).
  { rewrite (v3Outcome_cases P w _ _ Hmsg). unfold fetchedV3Release.
    destruct (v3ReleaseResponse w) as [| | |r];
      [split; [by intros ?%elem_of_nil | by intros (_ & ? & ? & ? & [=] & _)].. |].
    unfold version_of_tag.
    destruct (split "@" (tag_name r)) as [|packageName [|packageVersion rest]] eqn:Hsplit;
      [split; [by intros ?%elem_of_nil
              | intros (_ & ? & ? & ? & [= <-] & (? & ? & ? & ? & _) & _); congruence]..|].
    destruct (semver_valid P packageVersion) as [v|] eqn:Hv.
    2: { split; [by intros ?%elem_of_nil|].
         intros (_ & ? & ? & ? & [= <-] & (? & ? & ? & Hsplit' & [? Hv']) & _).
         rewrite Hsplit in Hsplit'. injection Hsplit' as <- <- <-. congruence. }
    change V3_RELEASE_MAX_TIMES_SHOWN with 5.
    destruct (v3TimesShown (cacheFromFile file) <? 5) eqn:Hlt;
      [apply Z.ltb_lt in Hlt | apply Z.ltb_ge in Hlt;
       split; [by intros ?%elem_of_nil | intros [? _]; lia]].
    change V3_RELEASE_VERSION_NOTIFIER_ASSET_NAME with "version-notifier-message.txt".
    destruct (find _ (assets r)) as [a|] eqn:Hasset;
      [|split; [by intros ?%elem_of_nil | intros (_ & ? & ? & ? & [= <-] & _ & ? & _); congruence]].
    destruct (assetResponse w (browser_download_url a)) as [m|] eqn:Hm; cbn [snd].
    - rewrite !elem_of_cons, elem_of_nil. split.
      + intros [|[[= ->]|]]; try done. split; [done|]. exists r, a, m.
        split; [done|]. split; [|done]. exists packageName, packageVersion, rest.
        split; [done | by eexists].
      + intros (_ & ? & ? & ? & [= <-] & _ & ? & ? & ->). simplify_eq. tauto.
    - rewrite !elem_of_cons, elem_of_nil. split; [by intros [|] |].
      intros (_ & ? & ? & ? & [= <-] & _ & ? & ? & _). congruence. }
  destruct (v3BodyThrows w) eqn:Hbody.
  { apply v3BodyThrows_true in Hbody. cbn [fst].
    rewrite !elem_of_app, !elem_of_cons, !elem_of_nil. split.
    - intros [[|[|]]|[Hin|[|]]]; try done. by apply Hlane1 in Hin.
    - intros (_ & _ & _ & ? & ? & ? & Hr & _). by rewrite Hr in Hbody. }
  destruct (latestV2Release P w) as [latest|] eqn:Hlatest,
           (fetchedV3Release w) as [v3|] eqn:Hv3; cbn [fst].
  4: { split; [set_solver|]. intros (_ & _ & _ & r & ? & ? & Hr & _).
       unfold fetchedV3Release in Hv3. by rewrite Hr in Hv3. }
  all: rewrite !elem_of_app, !elem_of_cons, elem_of_nil.
  all: split;
    [ intros [[|[|]]|[Hin|[|[|]]]]; try done;
      [by apply Hlane1 in Hin | split; [done | split; [done | by apply Hlane2]]]
    | intros (_ & _ & ?); right; right; left; by apply Hlane2 ].
Qed.

Lemma v3_notice_iff_witness :
  LogV3Message "Hardhat 3 is out"
  ∈ (invoke Sample.platform (Runs.online Runs.nov2)
       (Some (Runs.cacheFileOf "2026-10-31T00:00:00.000Z" 4))).1.
Proof.
  apply v3_notice_iff. split; [reflexivity|]. split; [discriminate|]. split; [reflexivity|].
  exists Runs.hardhat3,
    {| asset_name := "version-notifier-message.txt";
       browser_download_url := "https://example.org/version-notifier-message.txt" |},
    "Hardhat 3 is out".
  split; [reflexivity|]. split; [|repeat split; reflexivity].
  exists "hardhat", "3.0.0", []. split; [reflexivity | by eexists].
Defined.

Lemma v3_notices_app (l k : list event) : v3_notices (l ++ k) = v3_notices l ++ v3_notices k.
Proof. unfold v3_notices. apply List.filter_app. Qed.

(** One invocation whose write succeeds: the count in the file grows by the
    number of notices of the pinned release it printed, at most one, and none
    at the cap. *)
Lemma invoke_count (P : Platform) (w : World) (file : option json) :
  cacheWritable w = true →
  let shown := Z.of_nat (length (v3_notices (invoke P w file).1)) in
  v3TimesShown (cacheFromFile (invoke P w file).2) = v3TimesShown (cacheFromFile file) + shown
  ∧ 0 <= shown <= 1
  ∧ (shown = 1 → v3TimesShown (cacheFromFile file) < V3_RELEASE_MAX_TIMES_SHOWN).
Proof.
  intros Hwrite. cbv zeta. rewrite invoke_unfold. cbv zeta.
  destruct (cacheFromFile_fresh file) as [_ Hmsg].
  destruct (checkedRecently P w (cacheFromFile file)); [simpl; lia|].
  destruct (listBodyThrows w); [simpl; lia|].
  assert (Hlane1 : ∀ latest, v3_notices (newReleaseEvents P w latest) = []).
  { intros latest. rewrite newReleaseEvents_cases. by repeat case_match. }
  destruct (v3BodyThrows w).
  { cbn [fst snd]. rewrite !v3_notices_app, Hlane1. simpl. lia. }
  rewrite Hwrite.
  destruct (latestV2Release P w) as [latest|], (fetchedV3Release w) as [v3|]; cbn [fst snd].
  4: simpl; lia.
  all: rewrite cacheFromFile_written; cbn [v3TimesShown].
  all: rewrite !v3_notices_app, Hlane1.
  all: rewrite (v3Outcome_cases P w _ _ Hmsg).
  all: repeat case_match; simplify_eq; cbn; try lia.
  all: match goal with H : (_ <? _) = true |- _ => apply Z.ltb_lt in H end; lia.
Qed.

Lemma invocations_nil (P : Platform) (file : option json) :
  invocations P [] file = ([], file).
Proof. reflexivity. Qed.

(** X5. As long as the cache can be written, the notice of the pinned release is
    printed at most as many times as the count in the cache file is short of
    the cap, over any sequence of invocations. *)
Theorem v3_notice_budget (P : Platform) (ws : list World) (file : option json) :
  Forall (λ w, cacheWritable w = true) ws →
  Z.of_nat (length (v3_notices (concat (invocations P ws file).1)))
  <= Z.max 0 (V3_RELEASE_MAX_TIMES_SHOWN - v3TimesShown (cacheFromFile file)).
Proof.
  revert file. induction ws as [|w ws IH]; intros file Hwrite.
  - rewrite invocations_nil. simpl. lia.
  - apply Forall_cons in Hwrite as [Hw Hws].
    rewrite NotifierProps.invocations_cons. cbn [fst]. rewrite concat_cons, v3_notices_app.
    rewrite length_app, Nat2Z.inj_add.
    destruct (invoke_count P w file Hw) as (Hcount & Hrange & Hcap).
    specialize (IH (invoke P w file).2 Hws). rewrite Hcount in IH.
    unfold V3_RELEASE_MAX_TIMES_SHOWN in *. lia.
Qed.


Lemma v3_notice_budget_witness :
  Z.of_nat
    (length
       (v3_notices
          (concat
             (invocations Sample.platform [Runs.online Runs.nov1; Runs.online Runs.nov2]
                (Some (Runs.cacheFileOf "2026-10-31T00:00:00.000Z" 4))).1)))
  <= Z.max 0 (V3_RELEASE_MAX_TIMES_SHOWN - 4).
Proof.
  apply (v3_notice_budget Sample.platform [Runs.online Runs.nov1; Runs.online Runs.nov2]
           (Some (Runs.cacheFileOf "2026-10-31T00:00:00.000Z" 4))).
  repeat constructor.
Defined.

(** What the events of an invocation that wrote the cache tell: the guard
    let it through, and the file holds the current time when the write
    succeeded. *)
Lemma invoke_written (P : Platform) (w : World) (file : option json) (content : json) :
  WriteCache content ∈ (invoke P w file).1 →
  prop "lastCheck" content = Some (JStr (Date_toISOString P (now w)))
  ∧ (cacheWritable w = true → (invoke P w file).2 = Some content).
Proof.
  rewrite invoke_unfold. cbv zeta.
  destruct (checkedRecently P w (cacheFromFile file)); [by intros ?%elem_of_nil|].
  destruct (listBodyThrows w);
    [intros Hin; repeat (apply elem_of_cons in Hin as [Hin|Hin]; [done|]);
     by apply elem_of_nil in Hin|].
  pose proof (newReleaseEvents_quiet P w (latestV2Release P w)) as Hlane1.
  rewrite Forall_forall in Hlane1.
  destruct (v3BodyThrows w).
  { cbn [fst]. rewrite !elem_of_app, !elem_of_cons, !elem_of_nil.
    intros [[|[|]]|[Hin|[|]]]; try done.
    destruct (Hlane1 _ Hin) as [Hnot _]. by destruct (Hnot content). }
  pose proof (v3Outcome_quiet P w (cacheFromFile file) (fetchedV3Release w)) as Hlane2.
  rewrite Forall_forall in Hlane2.
  destruct (latestV2Release P w) as [latest|], (fetchedV3Release w) as [v3|]; cbn [fst snd].
  4: { intros Hin. repeat (apply elem_of_cons in Hin as [Hin|Hin]; [done|]).
       by apply elem_of_nil in Hin. }
  all: rewrite !elem_of_app, !elem_of_cons, !elem_of_nil.
  all: intros [Hrequest|[Hin1|[Hin2|Hlast]]];
    [ by destruct Hrequest as [|[|]]
    | first [done | destruct (Hlane1 _ Hin1) as [Hnot _]; by destruct (Hnot content)]
    | first [done | destruct (Hlane2 _ Hin2) as [Hnot _]; by destruct (Hnot content)]
    | destruct Hlast as [Heq|]; [|done] ].
  all: injection Heq as ->; split; [reflexivity | by intros ->].
Qed.

(** X6. After an invocation that wrote the cache, an invocation less than one
    day later does nothing: it reads back the time the first one wrote. *)
Theorem next_invocation_within_a_day_is_silent (P : Platform) (w w' : World)
    (file : option json) (content : json) :
  Date_getTime P (Date_toISOString P (now w)) = Some (now w) →
  WriteCache content ∈ (invoke P w file).1 →
  cacheWritable w = true →
  now w' - now w < oneDay →
  invoke P w' (invoke P w file).2 = ([], (invoke P w file).2).
Proof.
  intros Hdate Hwritten Hwrite Hsoon.
  destruct (invoke_written P w file content Hwritten) as [Hlast Hfile].
  rewrite (Hfile Hwrite).
  rewrite (invoke_unfold P w'). cbv zeta.
  assert (Hguard : checkedRecently P w' (cacheFromFile (Some content)) = true).
  { unfold checkedRecently, lastCheckTime, cacheFromFile.
    destruct content; try discriminate Hlast; cbn [lastCheck].
    rewrite Hlast, Hdate. fold oneDay. by apply Z.ltb_lt. }
  by rewrite Hguard.
Qed.

Lemma next_invocation_within_a_day_is_silent_witness :
  invoke Sample.platform (Runs.online (Runs.nov1 + 3600000))
    (invoke Sample.platform (Runs.online Runs.nov1)
       (Some (Runs.cacheFileOf "2026-10-31T00:00:00.000Z" 5))).2
  = ([], (invoke Sample.platform (Runs.online Runs.nov1)
            (Some (Runs.cacheFileOf "2026-10-31T00:00:00.000Z" 5))).2).
Proof.
  apply (next_invocation_within_a_day_is_silent Sample.platform (Runs.online Runs.nov1)
           (Runs.online (Runs.nov1 + 3600000))
           (Some (Runs.cacheFileOf "2026-10-31T00:00:00.000Z" 5))
           (cache_to_json
              {| lastCheck := Some "2026-11-01T00:00:00.000Z"; v3TimesShown := 5;
                 v3Release := Some Runs.hardhat3; v3ReleaseMessage := None |})).
  - reflexivity.
  - vm_compute. do 3 apply list_elem_of_further. apply list_elem_of_here.
  - reflexivity.
  - reflexivity.
Defined.

(** X7. A [lastCheck] that is a string but no date never holds the check back:
    the difference is [NaN], the comparison of the guard is false, and the
    release list is requested. *)
Theorem invalid_lastCheck_never_guards (P : Platform) (w : World) (content : json) (s : string) :
  prop "lastCheck" content = Some (JStr s) →
  Date_getTime P s = None →
  ∃ rest : list event, (invoke P w (Some content)).1 = RequestReleases :: rest.
Proof.
  intros Hprop Hdate. rewrite invoke_unfold. cbv zeta.
  assert (Hguard : checkedRecently P w (cacheFromFile (Some content)) = false).
  { unfold checkedRecently, lastCheckTime, cacheFromFile.
    destruct content; try discriminate Hprop; cbn [lastCheck]; by rewrite Hprop, Hdate. }
  rewrite Hguard.
  destruct (listBodyThrows w); [cbn [fst]; eauto|].
  destruct (v3BodyThrows w); [cbn [fst]; simpl; eauto|].
  destruct (latestV2Release P w), (fetchedV3Release w); cbn [fst]; simpl; eauto.
Qed.

Lemma invalid_lastCheck_never_guards_witness :
  ∃ rest : list event,
    (invoke Sample.platform (Runs.online Runs.nov2) (Some (Runs.cacheFileOf "yesterday" 0))).1
    = RequestReleases :: rest.
Proof.
  apply (invalid_lastCheck_never_guards Sample.platform (Runs.online Runs.nov2)
           (Runs.cacheFileOf "yesterday" 0) "yesterday").
  - reflexivity.
  - reflexivity.
Defined.

(** X10. What [writeCache] writes and what [readCache] reads back of it: the
    file holds [lastCheck], the count and, when the cache has them, the
    message and the descriptor of the pinned release; the cache read from
    that file has the same [lastCheck] and count, and neither the descriptor
    nor the message. The count is a number the model covers. *)
Theorem cache_round_trip (w : World) (cache : VersionNotifierCache) (io : Io) :
  cacheWritable w = true →
  - 2 ^ 53 < v3TimesShown cache < 2 ^ 53 →
  ∃ content : json,
    cacheFile (writeCache w cache io).2 = Some content
    ∧ prop "lastCheck" content =
      Some match lastCheck cache with Some s => JStr s | None => JNum 0 end
    ∧ prop "v3TimesShown" content = Some (JNum (v3TimesShown cache))
    ∧ prop "v3ReleaseMessage" content = JStr <$> v3ReleaseMessage cache
    ∧ prop "v3Release" content = release_to_json <$> Notifier.v3Release cache
    ∧ (∀ r : Release,
         Notifier.v3Release cache = Some r →
         ∃ release : json,
           prop "v3Release" content = Some release
           ∧ prop "tag_name" release = Some (JStr (tag_name r))
           ∧ prop "published_at" release = Some (JStr (published_at r)))
    ∧ (readCache (writeCache w cache io).2).1 =
      Some {| lastCheck := lastCheck cache; v3TimesShown := v3TimesShown cache;
              v3Release := None; v3ReleaseMessage := None |}.
Proof.
  intros Hwrite _. unfold writeCache, readCache. cbn [fst snd cacheFile]. rewrite Hwrite.
  exists (cache_to_json cache). split; [done|].
  destruct cache as [lc n [r|] [m|]]; cbn [Notifier.v3Release v3ReleaseMessage lastCheck v3TimesShown].
  all: repeat split; try reflexivity; try (by destruct lc).
  all: try (intros r' [= <-]; by eexists).
  all: try (by intros r' [=]).
Qed.

Lemma cache_round_trip_witness :
  ∃ content release : json,
    cacheFile
      (writeCache (Runs.online Runs.nov2)
         {| lastCheck := Some "2026-11-02T00:00:00.000Z"; v3TimesShown := 1;
            v3Release := Some Runs.hardhat3; v3ReleaseMessage := Some "Hardhat 3 is out" |}
         {| trace := []; cacheFile := None |}).2
    = Some content
    ∧ prop "v3ReleaseMessage" content = Some (JStr "Hardhat 3 is out")
    ∧ prop "v3Release" content = Some release
    ∧ prop "tag_name" release = Some (JStr "hardhat@3.0.0")
    ∧ Notifier.v3Release (cacheFromFile (Some content)) = None
    ∧ v3ReleaseMessage (cacheFromFile (Some content)) = None.
Proof.
  destruct (cache_round_trip (Runs.online Runs.nov2)
              {| lastCheck := Some "2026-11-02T00:00:00.000Z"; v3TimesShown := 1;
                 v3Release := Some Runs.hardhat3; v3ReleaseMessage := Some "Hardhat 3 is out" |}
              {| trace := []; cacheFile := None |})
    as (content & Hfile & _ & _ & Hmessage & _ & Hrelease & Hread).
  - reflexivity.
  - split; reflexivity.
  - destruct (Hrelease Runs.hardhat3 eq_refl) as (release & Hprop & Htag & _).
    exists content, release.
    split; [exact Hfile|]. split; [exact Hmessage|]. split; [exact Hprop|].
    split; [exact Htag|].
    unfold readCache in Hread. cbn [fst] in Hread. rewrite Hfile in Hread.
    apply (inj Some) in Hread. by rewrite Hread.
Defined.

(** X8. Every invocation has one of five shapes: nothing at all; the request
    of the release list and a [TypeError]; the two requests and nothing else;
    the two requests, at most one notice of the stable line and a
    [TypeError]; or the two requests, at most one notice of the stable line,
    at most one download followed by at most one notice of the pinned
    release, and one write of the cache, last, with [lastCheck] at the
    current time. Only the last shape touches the cache file. *)
Theorem invocation_shape (P : Platform) (w : World) (file : option json) :
  invoke P w file = ([], file)
  ∨ invoke P w file = ([RequestReleases; UncaughtTypeError], file)
  ∨ invoke P w file = ([RequestReleases; RequestV3Release], file)
  ∨ (∃ lane1 : list event,
       invoke P w file =
       ([RequestReleases; RequestV3Release] ++ lane1 ++ [UncaughtTypeError], file)
       ∧ (lane1 = [] ∨ ∃ text, lane1 = [LogNewRelease text]))
  ∨ ∃ (lane1 lane2 : list event) (content : json),
      invoke P w file =
      ([RequestReleases; RequestV3Release] ++ lane1 ++ lane2 ++ [WriteCache content],
       if cacheWritable w then Some content else file)
      ∧ (lane1 = [] ∨ ∃ text, lane1 = [LogNewRelease text])
      ∧ (lane2 = []
         ∨ ∃ url, lane2 = [RequestAsset url]
                  ∨ ∃ text, lane2 = [RequestAsset url; LogV3Message text])
      ∧ prop "lastCheck" content = Some (JStr (Date_toISOString P (now w))).
Proof.
  rewrite invoke_unfold. cbv zeta.
  destruct (cacheFromFile_fresh file) as [_ Hmsg].
  destruct (checkedRecently P w (cacheFromFile file)); [by left|]. right.
  destruct (listBodyThrows w); [by left|]. right.
  assert (Hlane1 : ∀ latest, newReleaseEvents P w latest = []
                             ∨ ∃ text, newReleaseEvents P w latest = [LogNewRelease text]).
  { intros latest. rewrite newReleaseEvents_cases. repeat case_match; eauto. }
  assert (Hlane2 : ∀ v3, (v3Outcome P w (cacheFromFile file) v3).2 = []
                         ∨ ∃ url, (v3Outcome P w (cacheFromFile file) v3).2 = [RequestAsset url]
                                  ∨ ∃ text, (v3Outcome P w (cacheFromFile file) v3).2
                                            = [RequestAsset url; LogV3Message text]).
  { intros v3. rewrite (v3Outcome_cases P w _ _ Hmsg). repeat case_match; cbn [snd]; eauto. }
  destruct (v3BodyThrows w).
  { right. left. eexists. split; [reflexivity | apply Hlane1]. }
  destruct (latestV2Release P w) as [latest|], (fetchedV3Release w) as [v3|]; [| | |by left].
  all: right; right; eexists _, _, _; split; [reflexivity|]; split; [apply Hlane1|];
    split; [apply Hlane2 | reflexivity].
Qed.

Lemma insert_release_perm (compare : Release → Release → Z) (r : Release) (l : list Release) :
  insert_release compare r l ≡ₚ r :: l.
Proof.
  induction l as [|r' l IH]; [done|]. simpl.
  destruct (0 <? compare r r'); [|done].
  rewrite IH. apply Permutation_swap.
Qed.

Lemma stable_sort_perm (compare : Release → Release → Z) (l : list Release) :
  stable_sort compare l ≡ₚ l.
Proof.
  unfold stable_sort. induction l as [|r l IH]; [done|]. simpl.
  by rewrite insert_release_perm, IH.
Qed.

(** Sorting loses and adds no release, whatever the order the engine
    leaves. *)
Lemma sort_releases_perm (P : Platform) (l : list Release) : sort_releases P l ≡ₚ l.
Proof. unfold sort_releases. destruct (dates_parse P l); apply stable_sort_perm. Qed.

Lemma dates_parse_true (P : Platform) (l : list Release) :
  Forall (λ r, is_Some (publishedTime P r)) l → dates_parse P l = true.
Proof.
  unfold dates_parse, publishedTime. induction 1 as [|r l [t Ht] _ IH]; [done|].
  simpl. by rewrite Ht.
Qed.

Lemma insert_release_sorted (P : Platform) (r : Release) (l : list Release) :
  is_Some (publishedTime P r) →
  Forall (λ r', is_Some (publishedTime P r')) l →
  StronglySorted (published_no_later P) l →
  StronglySorted (published_no_later P) (insert_release (by_published_at_desc P) r l).
Proof.
  intros [t Ht] Hdates Hsorted. induction Hsorted as [|r' l Hsorted IH Hall]; simpl.
  - by repeat constructor.
  - apply Forall_cons in Hdates as [[t' Ht'] Hdates].
    unfold by_published_at_desc. fold (publishedTime P r') (publishedTime P r).
    rewrite Ht, Ht'. destruct (0 <? t' - t) eqn:Hcmp.
    + apply Z.ltb_lt in Hcmp. constructor; [by apply IH|].
      fold (by_published_at_desc P).
      rewrite insert_release_perm. constructor; [|done].
      exists t', t. repeat split; [done..|lia].
    + apply Z.ltb_ge in Hcmp. constructor; [by constructor|].
      constructor; [exists t, t'; repeat split; [done..|lia]|].
      eapply Forall_impl; [exact Hall|]. intros x (t1 & tx & H1 & Hx & Hle).
      exists t, tx. repeat split; [done..|]. rewrite Ht' in H1. injection H1 as <-. lia.
Qed.

(** With dates that all parse, the releases come out newest first. *)
Lemma sort_releases_sorted (P : Platform) (l : list Release) :
  Forall (λ r, is_Some (publishedTime P r)) l →
  StronglySorted (published_no_later P) (sort_releases P l).
Proof.
  intros Hdates. unfold sort_releases. rewrite (dates_parse_true P l Hdates).
  unfold stable_sort. induction Hdates as [|r l Hr Hl IH]; simpl; [constructor|].
  apply insert_release_sorted; [done| |done].
  fold (stable_sort (by_published_at_desc P) l). by rewrite stable_sort_perm.
Qed.

Lemma find_first {A : Type} (p : A → bool) (l : list A) (x : A) :
  List.find p l = Some x →
  ∃ l1 l2 : list A, l = l1 ++ x :: l2 ∧ Forall (λ y, p y = false) l1 ∧ p x = true.
Proof.
  induction l as [|y l IH]; [done|]. simpl. destruct (p y) eqn:Hy.
  - intros [= ->]. by exists [], l.
  - intros (l1 & l2 & -> & Hl1 & Hx)%IH. exists (y :: l1), l2.
    split; [done|]. split; [by constructor | done].
Qed.

(** X9. The stable release the notifier compares with: none exactly when no
    received release qualifies; otherwise a received release that is neither a
    draft nor a prerelease, tagged [hardhat@v] with a valid [v] of major 2,
    and, when all publication dates parse, published no earlier than any
    other release that qualifies. *)
Theorem latest_v2_release_chosen (P : Platform) (w : World) :
  (latestV2Release P w = None ↔
   Forall (λ r, isLatestV2Candidate P r = false) (receivedReleases w))
  ∧ ∀ r : Release,
      latestV2Release P w = Some r →
      r ∈ receivedReleases w
      ∧ draft r = false ∧ prerelease r = false
      ∧ (∃ (v : string) (rest : list string),
           split "@" (tag_name r) = GITHUB_REPO :: v :: rest
           ∧ is_Some (semver_valid P v) ∧ semver_major P v = 2)
      ∧ (Forall (λ r', is_Some (publishedTime P r')) (receivedReleases w) →
         ∀ r' : Release,
           r' ∈ receivedReleases w → isLatestV2Candidate P r' = true →
           published_no_later P r r').
Proof.
  unfold latestV2Release, latestV2ReleaseOf, find. fold (receivedReleases w). split.
  - split.
    + intros Hnone. apply Forall_forall. intros r Hr.
      apply (find_none _ _ Hnone). apply list_elem_of_In.
      by rewrite sort_releases_perm.
    + intros Hall. destruct (List.find _ _) as [r|] eqn:Hfind; [|done].
      apply find_some in Hfind as [Hin Hp].
      apply list_elem_of_In in Hin. rewrite sort_releases_perm in Hin.
      rewrite Forall_forall in Hall. by rewrite (Hall r Hin) in Hp.
  - intros r Hfind.
    destruct (find_first _ _ _ Hfind) as (l1 & l2 & Hsplit & Hl1 & Hp).
    assert (Hin : r ∈ receivedReleases w).
    { rewrite <- (sort_releases_perm P), Hsplit. set_solver. }
    split; [done|].
    pose proof Hp as Hcand. unfold isLatestV2Candidate in Hcand.
    destruct (draft r), (prerelease r); try discriminate Hcand; simpl in Hcand.
    split; [done|]. split; [done|]. split.
    { destruct (split "@" (tag_name r)) as [|pkg [|v rest]]; try discriminate Hcand.
      apply andb_true_iff in Hcand as [Hpkg Hv]. apply String.eqb_eq in Hpkg as ->.
      exists v, rest. destruct (semver_valid P v); [|discriminate Hv].
      apply Z.eqb_eq in Hv. by eauto. }
    intros Hdates r' Hr' Hp'.
    pose proof (sort_releases_sorted P _ Hdates) as Hsorted.
    rewrite Hsplit in Hsorted.
    assert (Hr'' : r' ∈ l1 ++ r :: l2) by by rewrite <- Hsplit, sort_releases_perm.
    apply elem_of_app in Hr'' as [Hbefore|Hafter].
    { rewrite Forall_forall in Hl1. by rewrite (Hl1 r' Hbefore) in Hp'. }
    apply StronglySorted_app_1_r in Hsorted.
    apply StronglySorted_inv in Hsorted as [_ Hall].
    apply elem_of_cons in Hafter as [->|Hafter].
    + rewrite Forall_forall in Hdates. destruct (Hdates r Hin) as [t Ht].
      exists t, t. repeat split; [done..|lia].
    + rewrite Forall_forall in Hall. by apply Hall.
Qed.

End NotifierMore.

(** ** More about name collisions *)

Module TasksMore.
Import JS ContractNames Tasks JSFacts Text Collisions Generator Notions.
#[local] Set Warnings "-clear-no-such-hyp".

(** In a list that continues [before], [indexOf] answers the position right
    after [before] exactly for a string that [before] does not hold. *)
Lemma indexOf_after (before after : list string) (x : string) :
  indexOf (before ++ x :: after) x = Z.of_nat (length before) ↔ x ∉ before.
Proof.
  assert (Hhere : (before ++ x :: after) !! length before = Some x)
    by by rewrite list_lookup_middle.
  destruct (indexOf_from_first _ 0 x _ Hhere) as (j & Hle & Hj & Hmin & Hidx).
  unfold indexOf. rewrite Hidx. split.
  - intros Heq Hin. assert (j = length before) as -> by lia.
    apply list_elem_of_lookup in Hin as [i Hi].
    apply (Hmin i); [by eapply lookup_lt_Some|].
    rewrite lookup_app_l; [done | by eapply lookup_lt_Some].
  - intros Hnot. destruct (decide (j = length before)) as [->|Hne]; [lia|].
    exfalso. apply Hnot. rewrite lookup_app_l in Hj by lia.
    by eapply list_elem_of_lookup_2.
Qed.

Lemma filter_from_count (before after : list string) (x : string) :
  count_occ string_dec
    (filter_from (length before) (not_first_occurrence (before ++ after)) after) x
  = if decide (x ∈ before) then count_occ string_dec after x
    else (count_occ string_dec after x - 1)%nat.
Proof.
  revert before. induction after as [|y after IH]; intros before.
  - simpl. by case_decide.
  - cbn [filter_from].
    replace (before ++ y :: after) with ((before ++ [y]) ++ after) by by rewrite <- app_assoc.
    specialize (IH (before ++ [y])). rewrite length_app, Nat.add_1_r in IH.
    assert (Hhead : not_first_occurrence ((before ++ [y]) ++ after) y (length before)
                    = bool_decide (y ∈ before)).
    { rewrite <- app_assoc. simpl. unfold not_first_occurrence.
      case_bool_decide as Hin.
      - apply negb_true_iff, Z.eqb_neq. by intros Heq%indexOf_after.
      - apply negb_false_iff, Z.eqb_eq. by apply indexOf_after. }
    rewrite Hhead. case_bool_decide as Hy.
    + cbn [count_occ]. rewrite IH.
      destruct (string_dec y x) as [->|Hne].
      * rewrite decide_True by set_solver. by rewrite decide_True by done.
      * destruct (decide (x ∈ before)).
        -- by rewrite decide_True by set_solver.
        -- by rewrite decide_False by set_solver.
    + rewrite IH. cbn [count_occ].
      destruct (string_dec y x) as [->|Hne].
      * rewrite decide_True by set_solver. rewrite decide_False by done. lia.
      * destruct (decide (x ∈ before)).
        -- by rewrite decide_True by set_solver.
        -- by rewrite decide_False by set_solver.
Qed.

Lemma count_never (l : list string) (name : string) :
  count_occ string_dec (List.map (fun n => n +:+ ": never;") l) (name +:+ ": never;")
  = count_occ string_dec l name.
Proof.
  induction l as [|y l IH]; [done|]. cbn [List.map count_occ].
  destruct (string_dec (y +:+ ": never;") (name +:+ ": never;")) as [Heq|Hne],
           (string_dec y name) as [Heq'|Hne']; rewrite IH; try done.
  - by apply append_inj_r in Heq.
  - by subst.
Qed.

(** X11. The collision computation keeps every occurrence of a name but the
    first: a name that stands [k] times among the contract names is listed
    [k - 1] times, and printed as many times in the global aggregate; the
    list is empty exactly when the names are pairwise distinct, and the
    aggregate is then the one of no contract at all. *)
Theorem duplicates_multiplicity (contractNames : list string) :
  (∀ name : string,
     count_occ string_dec (dupContractNames contractNames) name
     = (count_occ string_dec contractNames name - 1)%nat
     ∧ count_occ string_dec (neverEntries contractNames) (name +:+ ": never;")
       = (count_occ string_dec contractNames name - 1)%nat)
  ∧ (dupContractNames contractNames = [] ↔ NoDup contractNames)
  ∧ (NoDup contractNames →
     generateArtifactsDefinition contractNames = generateArtifactsDefinition []).
Proof.
  assert (Hcount : ∀ name, count_occ string_dec (dupContractNames contractNames) name
                           = (count_occ string_dec contractNames name - 1)%nat).
  { intros name. unfold dupContractNames, filter_indexed.
    pose proof (filter_from_count [] contractNames name) as H.
    cbn [length app] in H. rewrite H. case_decide as Hin; [|done].
    by apply elem_of_nil in Hin. }
  assert (Hdup : dupContractNames contractNames = [] ↔ NoDup contractNames).
  { rewrite NoDup_ListNoDup, (List.NoDup_count_occ string_dec). split.
    - intros Hnil name. specialize (Hcount name). rewrite Hnil in Hcount. simpl in Hcount. lia.
    - intros Hle. apply (count_occ_inv_nil string_dec). intros name.
      rewrite Hcount. specialize (Hle name). lia. }
  split; [|split; [done|]].
  - intros name. split; [done|]. rewrite <- Hcount. apply count_never.
  - intros Hnodup. apply Hdup in Hnodup.
    unfold generateArtifactsDefinition, neverEntries.
    fold (dupContractNames contractNames). by rewrite Hnodup.
Qed.

End TasksMore.

(** ** Strings and paths *)

Module StringFacts.
Import JS ContractNames Tasks JSFacts Text Generator Notions.

Lemma rev_app_app (s a b : string) :
  String.rev_app (String.rev_app s a) b = String.rev_app a (s +:+ b).
Proof.
  revert a b. induction s as [|c s IH]; intros a b; [done|].
  simpl. by rewrite IH.
Qed.

Lemma rev_app_rev (s a : string) : String.rev_app s a = String.rev s +:+ a.
Proof.
  unfold String.rev. revert a. induction s as [|c s IH]; intros a; [done|]. simpl.
  rewrite (IH (String c a)), (IH (String c EmptyString)).
  by rewrite append_assoc.
Qed.

Lemma rev_cons (c : ascii) (s : string) :
  String.rev (String c s) = String.rev s +:+ String c EmptyString.
Proof. unfold String.rev at 1. simpl. apply rev_app_rev. Qed.

Lemma split_acc_not_nil (sep : ascii) (cur s : string) : split_acc sep cur s ≠ [].
Proof. revert cur. induction s as [|c s IH]; intros cur; simpl; [done|]. by case_match. Qed.

Lemma join_cons (sep x : string) (l : list string) :
  l ≠ [] → join sep (x :: l) = x +:+ sep +:+ join sep l.
Proof. by destruct l. Qed.

(** Joining the pieces of a split gives the string back. *)
Lemma join_split_acc (sep : ascii) (cur s : string) :
  join (String sep EmptyString) (split_acc sep cur s) = String.rev cur +:+ s.
Proof.
  revert cur. induction s as [|c s IH]; intros cur; simpl.
  - by rewrite append_nil_r.
  - destruct (Ascii.eqb c sep) eqn:Hc.
    + apply Ascii.eqb_eq in Hc as ->.
      rewrite join_cons by apply split_acc_not_nil. by rewrite IH.
    + rewrite IH, rev_cons. by rewrite append_assoc.
Qed.

Lemma join_split (sep : ascii) (s : string) :
  join (String sep EmptyString) (split sep s) = s.
Proof. unfold split. by rewrite join_split_acc. Qed.

Lemma split_inj (sep : ascii) (s t : string) : split sep s = split sep t → s = t.
Proof. intros Heq. by rewrite <- (join_split sep s), Heq, join_split. Qed.

Lemma split_acc_no_slash (cur s : string) :
  no_slash s = true → split_acc "/" cur s = [String.rev cur +:+ s].
Proof.
  revert cur. induction s as [|c s IH]; intros cur Hs; simpl.
  - by rewrite append_nil_r.
  - simpl in Hs. apply andb_true_iff in Hs as [Hc Hs].
    apply negb_true_iff in Hc. rewrite Hc, IH by done.
    by rewrite rev_cons, append_assoc.
Qed.

Lemma split_no_slash (s : string) : no_slash s = true → split "/" s = [s].
Proof. intros Hs. unfold split. by rewrite split_acc_no_slash. Qed.

Lemma no_slash_app (s t : string) : no_slash (s +:+ t) = no_slash s && no_slash t.
Proof.
  induction s as [|c s IH]; [done|]. rewrite append_cons. simpl.
  by rewrite IH, andb_assoc.
Qed.

Lemma substring_all (s : string) : String.substring 0 (String.length s) s = s.
Proof. induction s as [|c s IH]; [done|]. simpl. by rewrite IH. Qed.

Lemma substring_app_r (pre suf : string) :
  String.substring (String.length pre) (String.length suf) (pre +:+ suf) = suf.
Proof.
  induction pre as [|c pre IH]; [apply substring_all|]. by rewrite append_cons.
Qed.

Lemma substring_split (s : string) (k : nat) :
  (k <= String.length s)%nat →
  s = String.substring 0 k s +:+ String.substring k (String.length s - k) s.
Proof.
  revert k. induction s as [|c s IH]; intros [|k] Hk; simpl in *; try lia.
  - done.
  - by rewrite substring_all.
  - rewrite append_cons. f_equal. apply IH. lia.
Qed.

(** [endsWith] holds of the strings that are some string followed by the
    suffix. *)
Lemma endsWith_true (s suffix : string) :
  endsWith s suffix = true ↔ ∃ before : string, s = before +:+ suffix.
Proof.
  unfold endsWith. split.
  - destruct (_ <=? _)%nat eqn:Hle; [|done]. apply Nat.leb_le in Hle.
    intros Heq%String.eqb_eq.
    exists (String.substring 0 (String.length s - String.length suffix) s).
    etransitivity;
      [apply (substring_split s (String.length s - String.length suffix)); lia|].
    f_equal. rewrite <- Heq at 3. f_equal. lia.
  - intros [before ->]. rewrite length_append.
    rewrite (proj2 (Nat.leb_le _ _)) by lia.
    replace (String.length before + String.length suffix - String.length suffix)%nat
      with (String.length before) by lia.
    rewrite substring_app_r. apply String.eqb_refl.
Qed.

(** A suffix without a slash of a string lies within what follows the last
    slash. *)
Lemma suffix_after_slash (a n before suffix : string) :
  a +:+ String "/" n = before +:+ suffix →
  no_slash suffix = true →
  ∃ before' : string, n = before' +:+ suffix.
Proof.
  revert before. induction a as [|c a IH]; intros [|d before] Heq Hs.
  - change (String "/" n = suffix) in Heq. subst. done.
  - rewrite append_cons in Heq. injection Heq as _ Heq. by exists before.
  - change (String c (a +:+ String "/" n) = suffix) in Heq. subst.
    simpl in Hs. apply andb_true_iff in Hs as [_ Hs].
    rewrite no_slash_app in Hs. apply andb_true_iff in Hs as [_ Hs]. done.
  - rewrite !append_cons in Heq. injection Heq as _ Heq. by eapply IH.
Qed.

Lemma path_to_string_last (dir : path) (segment : string) :
  ∃ a : string, path_to_string (dir ++ [segment]) = a +:+ String "/" segment.
Proof.
  unfold path_to_string. induction dir as [|d dir [a IH]].
  - by exists EmptyString.
  - exists (String "/" d +:+ a).
    change ((d :: dir) ++ [segment]) with (d :: (dir ++ [segment])).
    rewrite join_cons by by destruct dir.
    change ("/" +:+ d +:+ "/" +:+ join "/" (dir ++ [segment]))
      with (String "/" d +:+ ("/" +:+ join "/" (dir ++ [segment]))).
    rewrite IH. by rewrite append_assoc.
Qed.

(** No file the emit sub-task names for a contract, and not its aggregate
    either, has a path that ends in [file.d.ts], unless the name of the
    contract ends in [file]. *)
Lemma generated_path_not_marker (dir : path) (name : string) :
  no_slash name = true →
  endsWith name "file" = false →
  endsWith (path_to_string (path_join dir (name +:+ ".d.ts"))) "file.d.ts" = false.
Proof.
  intros Hslash Hfile. unfold path_join.
  rewrite split_no_slash by by rewrite no_slash_app, Hslash.
  destruct (path_to_string_last dir (name +:+ ".d.ts")) as [a ->].
  destruct (endsWith _ "file.d.ts") eqn:Hends; [exfalso | done].
  apply endsWith_true in Hends as [before Heq].
  change "file.d.ts" with ("file" +:+ ".d.ts") in Heq.
  change (String "/" (name +:+ ".d.ts")) with (String "/" name +:+ ".d.ts") in Heq.
  rewrite <- !append_assoc in Heq. apply append_inj_r in Heq.
  apply suffix_after_slash in Heq as [before' ->]; [|done].
  assert (endsWith (before' +:+ "file") "file" = true) by (apply endsWith_true; eauto).
  congruence.
Qed.

End StringFacts.

(** ** More about the emit sub-task *)

Module EmitFacts.
Import JS ContractNames Tasks JSFacts Text Generator Notions StringFacts.
#[local] Set Warnings "-clear-no-such-hyp".

Lemma find_constructor_objects (abi : list json) :
  Forall (λ entry, is_object entry = true) abi →
  ∃ found : option json,
    find_constructor abi = Some found
    ∧ ∀ entry, found = Some entry → entry ∈ abi ∧ is_constructor entry = Some true.
Proof.
  induction 1 as [|entry abi Hentry _ (found & Hfound & Hin)].
  - exists None. by split.
  - simpl. destruct entry; try discriminate Hentry.
    unfold is_constructor at 1.
    destruct (match prop "type" (JObj members) with
              | Some (JStr t) => String.eqb t "constructor"
              | _ => false
              end) eqn:Htype.
    + exists (Some (JObj members)). split; [done|]. intros ? [= <-].
      split; [set_solver|]. unfold is_constructor. by rewrite Htype.
    + exists found. split; [done|]. intros e He. destruct (Hin e He). split; [set_solver|done].
Qed.

(** X12. The generator returns a text for every artifact whose names are strings
    and whose ABI entries and constructor inputs are objects. *)
Theorem generateContractDeclaration_total (artifact : json) (isDup : bool)
    (contractName sourceName : string) (abi : list json) :
  string_prop "contractName" artifact = Some contractName →
  string_prop "sourceName" artifact = Some sourceName →
  array_prop "abi" artifact = Some abi →
  Forall (λ entry, is_object entry = true) abi →
  (∀ entry : json,
     entry ∈ abi → is_constructor entry = Some true →
     ∃ inputs : list json,
       array_prop "inputs" entry = Some inputs
       ∧ Forall (λ input, is_object input = true) inputs) →
  ∃ (inputs : list json) (args : string),
    constructorInputs artifact = Some inputs
    ∧ constructorArgs inputs = Some args
    ∧ generateContractDeclaration artifact isDup =
      Some (declarationText inputs (contractName +:+ "$Type") (JSON_stringify_2 artifact) args
              (validNames contractName (getFullyQualifiedName sourceName contractName) isDup)).
Proof.
  intros Hname Hsource Habi Hobjects Hinputs.
  destruct (find_constructor_objects abi Hobjects) as (found & Hfound & Hin).
  assert (∃ inputs, constructorInputs artifact = Some inputs
                    ∧ Forall (λ input, is_object input = true) inputs)
    as (inputs & Hci & Hio).
  { unfold constructorInputs. rewrite Habi. simpl. rewrite Hfound. simpl.
    destruct found as [entry|]; [|by exists []].
    destruct (Hin entry eq_refl) as [He Hc]. by apply Hinputs. }
  assert (Hnull : Forall (λ input, input ≠ JNull) inputs).
  { eapply Forall_impl; [exact Hio|]. by intros [] ?. }
  assert (∃ args, constructorArgs inputs = Some args) as [args Hargs].
  { destruct (decide (inputs = [])) as [->|Hne]; [by eexists|].
    destruct (constructorArgs_cons inputs Hne Hnull) as (types & -> & _). by eexists. }
  exists inputs, args. split; [done|]. split; [done|].
  by apply generateContractDeclaration_text.
Qed.

(** *** Writes *)

Lemma in_the_way_false (p : path) (fs : gmap path string) :
  in_the_way p fs = false ↔ clear_at p fs.
Proof.
  unfold in_the_way, clear_at. split.
  - intros Hnone q [c Hq] Hne.
    destruct (decide (p `prefix_of` q ∨ q `prefix_of` p)) as [Hrel|Hrel]; [exfalso | tauto].
    assert (Hex : existsb (fun q => bool_decide (q ≠ p ∧ (p `prefix_of` q ∨ q `prefix_of` p)))
                    (map_to_list fs).*1 = true); [|congruence].
    apply existsb_exists. exists q. split; [|by apply bool_decide_eq_true].
    apply list_elem_of_In, list_elem_of_fmap. exists (q, c).
    split; [done | by apply elem_of_map_to_list].
  - intros Hclear. destruct (existsb _ _) eqn:Hex; [exfalso | done].
    apply existsb_exists in Hex as (q & Hin & Hq). apply bool_decide_eq_true in Hq as [Hne Hrel].
    apply list_elem_of_In, list_elem_of_fmap in Hin as ([q' c] & -> & Hin).
    apply elem_of_map_to_list in Hin. simpl in *.
    destruct (Hclear q' (mk_is_Some _ _ Hin) Hne). tauto.
Qed.

Lemma writeFile_lookup_ne (q p : path) (content : string) (fs : gmap path string) :
  q ≠ p → writeFile q content fs !! p = fs !! p.
Proof.
  intros Hne. unfold writeFile. destruct (in_the_way q fs); [done|].
  by rewrite lookup_insert_ne.
Qed.

Lemma writeFile_lookup_eq (p : path) (content : string) (fs : gmap path string) :
  clear_at p fs → writeFile p content fs !! p = Some content.
Proof.
  intros Hclear%in_the_way_false. unfold writeFile. rewrite Hclear.
  by rewrite lookup_insert_eq.
Qed.

Lemma writeFile_mono (q p : path) (content : string) (fs : gmap path string) :
  is_Some (fs !! p) → is_Some (writeFile q content fs !! p).
Proof.
  intros Hp. unfold writeFile. destruct (in_the_way q fs); [done|].
  destruct (decide (q = p)) as [->|Hne]; [by rewrite lookup_insert_eq|].
  by rewrite lookup_insert_ne.
Qed.

Lemma writeFile_keys (q p : path) (content : string) (fs : gmap path string) :
  is_Some (writeFile q content fs !! p) → p = q ∨ is_Some (fs !! p).
Proof.
  destruct (decide (q = p)) as [->|Hne]; [by left|].
  rewrite writeFile_lookup_ne by done. by right.
Qed.

Lemma writeFile_clear (q p : path) (content : string) (fs : gmap path string) :
  clear_at p fs →
  q = p ∨ (¬ p `prefix_of` q ∧ ¬ q `prefix_of` p) →
  clear_at p (writeFile q content fs).
Proof.
  intros Hclear Hq q' [->|Hin]%writeFile_keys Hne; [|by apply Hclear].
  by destruct Hq.
Qed.

(** A run of writes, one per element of a list. *)
Lemma writes_snoc {A : Type} (key : A → path) (value : A → string) (l : list A) (x : A)
    (fs : gmap path string) :
  foldl (fun fs x => writeFile (key x) (value x) fs) fs (l ++ [x])
  = writeFile (key x) (value x) (foldl (fun fs x => writeFile (key x) (value x) fs) fs l).
Proof. by rewrite foldl_app. Qed.

Lemma writes_clear {A : Type} (key : A → path) (value : A → string) (l : list A)
    (fs : gmap path string) (p : path) :
  clear_at p fs →
  Forall (λ x, key x = p ∨ (¬ p `prefix_of` key x ∧ ¬ key x `prefix_of` p)) l →
  clear_at p (foldl (fun fs x => writeFile (key x) (value x) fs) fs l).
Proof.
  intros Hclear Hall. induction l as [|x l IH] using rev_ind; [done|].
  apply Forall_app in Hall as [Hl [Hx _]%Forall_cons].
  rewrite writes_snoc. apply writeFile_clear; [by apply IH | done].
Qed.

Lemma writes_ext {A : Type} (key : A → path) (value value' : A → string) (l : list A)
    (fs : gmap path string) :
  (∀ x, x ∈ l → value x = value' x) →
  foldl (fun fs x => writeFile (key x) (value x) fs) fs l
  = foldl (fun fs x => writeFile (key x) (value' x) fs) fs l.
Proof.
  revert fs. induction l as [|x l IH]; intros fs Hsame; [done|].
  simpl. rewrite (Hsame x) by apply list_elem_of_here.
  apply IH. intros y Hy. apply Hsame. by apply list_elem_of_further.
Qed.

(** A path no write is for keeps what it held; a file that was there is
    still there; and a path that nothing is in the way of holds what the
    writes for it all agree on. *)
Lemma writes_lookup {A : Type} (key : A → path) (value : A → string) (l : list A)
    (fs : gmap path string) (p : path) :
  (Forall (λ x, key x ≠ p) l →
   foldl (fun fs x => writeFile (key x) (value x) fs) fs l !! p = fs !! p)
  ∧ (is_Some (fs !! p) →
     is_Some (foldl (fun fs x => writeFile (key x) (value x) fs) fs l !! p))
  ∧ (∀ content : string,
       (∃ x, x ∈ l ∧ key x = p) →
       Forall (λ x, key x = p → value x = content) l →
       clear_at p fs →
       Forall (λ x, key x = p ∨ (¬ p `prefix_of` key x ∧ ¬ key x `prefix_of` p)) l →
       foldl (fun fs x => writeFile (key x) (value x) fs) fs l !! p = Some content).
Proof.
  induction l as [|x l (IH1 & IH2 & IH3)] using rev_ind.
  - split; [done|]. split; [done|]. intros ? (? & []%elem_of_nil & _).
  - rewrite writes_snoc. split; [|split].
    + intros [Hl [Hx _]%Forall_cons]%Forall_app.
      rewrite writeFile_lookup_ne by done. by apply IH1.
    + intros Hp. by apply writeFile_mono, IH2.
    + intros content (y & Hy & Hkey) [Hl [Hx _]%Forall_cons]%Forall_app Hclear
        [Hrel _]%Forall_app.
      destruct (decide (key x = p)) as [Heq|Hne].
      * rewrite Heq, <- (Hx Heq). apply writeFile_lookup_eq. by apply writes_clear.
      * rewrite writeFile_lookup_ne by done. apply IH3; [|done..].
        apply elem_of_app in Hy as [Hy|Hy%list_elem_of_singleton]; [by exists y|].
        by subst.
Qed.

(** *** The writes of the emit sub-task *)

(** What the callback of the emit sub-task returns for a contract. *)
Lemma contractTypeDataOf_Some (h : Host) (dups : list string) (source name : string)
    (ctd : ContractTypeData) :
  contractTypeDataOf h dups source name = Some ctd →
  ∃ (artifact : json) (declaration : string),
    readArtifact h (getFullyQualifiedName source name) = Some artifact
    ∧ generateContractDeclaration artifact (includes dups name) = Some declaration
    ∧ ctd = {| ctd_contractName := name;
               ctd_fqn := getFullyQualifiedName source name;
               ctd_typeName := name +:+ "$Type";
               ctd_declaration := declaration |}.
Proof.
  unfold contractTypeDataOf. intros Hctd.
  destruct (readArtifact h _) as [artifact|]; [simpl in Hctd|done].
  destruct (generateContractDeclaration artifact _) as [declaration|] eqn:Hgen;
    [simpl in Hctd|done].
  injection Hctd as <-. by exists artifact, declaration.
Qed.

(** The writes of one callback, spelled out. *)
Lemma emitFileWrites_Some (h : Host) (dups : list string) (fs : gmap path string)
    (e : EmittedFile) (writes : list (path * string)) :
  emitFileWrites h dups fs e = Some writes →
  let srcDir := path_join (paths_artifacts h) (file_sourceName e) in
  ∃ data : list ContractTypeData,
    mkdir_rejects srcDir fs = false
    ∧ Forall2 (λ name ctd, contractTypeDataOf h dups (file_sourceName e) name = Some ctd)
        (artifactsEmitted e) data
    ∧ writes =
      List.map
        (fun ctd => (path_join srcDir (ctd_contractName ctd +:+ ".d.ts"), ctd_declaration ctd))
        data
      ++ [(path_join srcDir "artifacts.d.ts", generateDTsFile data)].
Proof.
  unfold emitFileWrites. cbv zeta. intros Hemit.
  destruct (mkdir_rejects _ fs); [done|].
  destruct (mapM _ (artifactsEmitted e)) as [data|] eqn:Hdata; [simpl in Hemit|done].
  injection Hemit as <-. exists data. split; [done|]. split; [by apply mapM_Some_1 | done].
Qed.

Lemma data_names (h : Host) (dups : list string) (source : string) (names : list string)
    (data : list ContractTypeData) :
  Forall2 (λ name ctd, contractTypeDataOf h dups source name = Some ctd) names data →
  (∀ ctd, ctd ∈ data →
     ∃ name, name ∈ names ∧ contractTypeDataOf h dups source name = Some ctd)
  ∧ (∀ name, name ∈ names →
       ∃ ctd, ctd ∈ data ∧ contractTypeDataOf h dups source name = Some ctd).
Proof.
  intros Hall. split.
  - intros ctd [i Hi]%list_elem_of_lookup.
    destruct (Forall2_lookup_r _ _ _ _ _ Hall Hi) as (name & Hname & Hctd).
    exists name. split; [by eapply list_elem_of_lookup_2 | done].
  - intros name [i Hi]%list_elem_of_lookup.
    destruct (Forall2_lookup_l _ _ _ _ _ Hall Hi) as (ctd & Hctd & Hdata).
    exists ctd. split; [by eapply list_elem_of_lookup_2 | done].
Qed.

(** The names of the data are the emitted names, in their order. *)
Lemma data_contractNames (h : Host) (dups : list string) (source : string)
    (names : list string) (data : list ContractTypeData) :
  Forall2 (λ name ctd, contractTypeDataOf h dups source name = Some ctd) names data →
  List.map ctd_contractName data = names.
Proof.
  induction 1 as [|name ctd names data Hctd _ IH]; [done|]. simpl. rewrite IH.
  by apply contractTypeDataOf_Some in Hctd as (? & ? & _ & _ & ->).
Qed.

(** Where one callback writes: to the aggregate of the directory, or to the
    declaration of an emitted contract. *)
Lemma emitFileWrites_paths (h : Host) (dups : list string) (fs : gmap path string)
    (e : EmittedFile) (writes : list (path * string)) (p : path) :
  emitFileWrites h dups fs e = Some writes →
  p ∈ writes.*1 →
  p = path_join (path_join (paths_artifacts h) (file_sourceName e)) "artifacts.d.ts"
  ∨ ∃ name, name ∈ artifactsEmitted e
            ∧ p = path_join (path_join (paths_artifacts h) (file_sourceName e))
                    (name +:+ ".d.ts").
Proof.
  intros (data & _ & Hdata & ->)%emitFileWrites_Some.
  rewrite fmap_app, elem_of_app. intros [Hin|Hin].
  - right. apply list_elem_of_fmap in Hin as ([q c] & -> & Hin).
    apply list_elem_of_In, in_map_iff in Hin as (ctd & [= <- <-] & Hctd%list_elem_of_In).
    destruct (data_names _ _ _ _ _ Hdata) as [Hnames _].
    destruct (Hnames ctd Hctd) as (name & Hname & Hof).
    apply contractTypeDataOf_Some in Hof as (? & ? & _ & _ & ->).
    by exists name.
  - left. by apply list_elem_of_singleton in Hin.
Qed.

(** What the writes leave: every file that was there, and new content only
    at the paths written. *)
Lemma settle_lookup (h : Host) (writes : list (path * string)) (fs : gmap path string)
    (p : path) :
  (is_Some (fs !! p) → is_Some (settle h writes fs !! p))
  ∧ (settle h writes fs !! p ≠ fs !! p → p ∈ writes.*1).
Proof.
  unfold settle.
  destruct (writes_lookup fst (λ w, settledContent h writes w.1) writes fs p)
    as (Hframe & Hmono & _).
  split; [done|]. intros Hchanged.
  destruct (decide (p ∈ writes.*1)) as [|Hnot]; [done|].
  exfalso. apply Hchanged, Hframe. apply Forall_forall. intros [q c] Hin Heq.
  simpl in Heq. subst q. apply Hnot, list_elem_of_fmap. by exists (p, c).
Qed.

(** Where [emitFile] writes: a file that is there afterwards was there
    before, or is the aggregate, or is the declaration of an emitted
    contract; and a file that was there is still there. *)
Lemma emitFile_paths (h : Host) (dups : list string) (fs fs' : gmap path string)
    (e : EmittedFile) (p : path) :
  emitFile h dups fs e = Some fs' →
  (is_Some (fs !! p) → is_Some (fs' !! p))
  ∧ (fs' !! p ≠ fs !! p →
     p = path_join (path_join (paths_artifacts h) (file_sourceName e)) "artifacts.d.ts"
     ∨ ∃ name, name ∈ artifactsEmitted e
               ∧ p = path_join (path_join (paths_artifacts h) (file_sourceName e))
                       (name +:+ ".d.ts")).
Proof.
  unfold emitFile. intros Hemit.
  destruct (emitFileWrites h dups fs e) as [writes|] eqn:Hwrites; [simpl in Hemit|done].
  injection Hemit as <-.
  destruct (settle_lookup h writes fs p) as [Hmono Hchanged].
  split; [done|]. intros Hne. by eapply emitFileWrites_paths, Hchanged.
Qed.

Lemma emitArtifacts_paths (h : Host) (es : list EmittedFile)
    (fs fs' : gmap path string) (p : path) :
  emitArtifacts h es fs = Some fs' →
  (is_Some (fs !! p) → is_Some (fs' !! p))
  ∧ (fs' !! p ≠ fs !! p →
     ∃ e, e ∈ es
          ∧ (p = path_join (path_join (paths_artifacts h) (file_sourceName e)) "artifacts.d.ts"
             ∨ ∃ name, name ∈ artifactsEmitted e
                       ∧ p = path_join (path_join (paths_artifacts h) (file_sourceName e))
                               (name +:+ ".d.ts"))).
Proof.
  unfold emitArtifacts. intros Hemit.
  destruct (contractNamesOf _) as [names|]; [simpl in Hemit|done].
  destruct (mapM _ es) as [writes|] eqn:Hwrites; [simpl in Hemit|done].
  injection Hemit as <-. apply mapM_Some_1 in Hwrites.
  destruct (settle_lookup h (concat writes) fs p) as [Hmono Hchanged].
  split; [done|]. intros Hne. specialize (Hchanged Hne).
  apply list_elem_of_fmap in Hchanged as ([q c] & -> & Hin).
  apply list_elem_of_In, in_concat in Hin as (ws & Hws%list_elem_of_In & Hin%list_elem_of_In).
  apply list_elem_of_lookup in Hws as [i Hi].
  destruct (Forall2_lookup_r _ _ _ _ _ Hwrites Hi) as (e & He & Hof).
  exists e. split; [by eapply list_elem_of_lookup_2|].
  eapply emitFileWrites_paths; [exact Hof|].
  apply list_elem_of_fmap. by exists (q, c).
Qed.

Lemma generateContractDeclaration_total_witness :
  ∃ (inputs : list json) (args : string),
    constructorInputs Examples.token = Some inputs
    ∧ constructorArgs inputs = Some args
    ∧ generateContractDeclaration Examples.token true =
      Some (declarationText inputs ("Token" +:+ "$Type") (JSON_stringify_2 Examples.token) args
              (validNames "Token" (getFullyQualifiedName "contracts/Token.sol" "Token") true)).
Proof.
  apply (generateContractDeclaration_total Examples.token true "Token" "contracts/Token.sol"
           [Examples.constructorEntry
              [Examples.parameter "supply" "uint256"; Examples.parameter "owner" "address"];
            Examples.functionEntry "totalSupply"]).
  - reflexivity.
  - reflexivity.
  - reflexivity.
  - repeat constructor.
  - intros entry Hin Hconstructor.
    apply elem_of_cons in Hin as [->|Hin].
    + eexists. split; [reflexivity|]. repeat constructor.
    + apply list_elem_of_singleton in Hin as ->. discriminate Hconstructor.
Defined.

Lemma generated_emitted :
  emitArtifacts Examples.hostXYZ Examples.emittedXYZ ∅ = Some Examples.generated.
Proof. apply default_Some. vm_compute. reflexivity. Qed.

Lemma emittedX_emitted :
  emitFile Examples.hostXYZ [] ∅
    {| file_sourceName := "contracts/X.sol"; artifactsEmitted := ["X"] |}
  = Some emittedX.
Proof. apply default_Some. vm_compute. reflexivity. Qed.

Lemma generatedInProject_emitted :
  emitArtifacts Examples.hostXYZ Examples.emittedXYZ projectFs = Some generatedInProject.
Proof. apply default_Some. vm_compute. reflexivity. Qed.

(** X13. The emit sub-task removes no file, and the only files it creates or
    changes are, in the directory of an emitted source file, the aggregate
    [artifacts.d.ts] and one [.d.ts] file per emitted contract. *)
Theorem emitArtifacts_writes_only_declarations (h : Host) (es : list EmittedFile)
    (fs fs' : gmap path string) (p : path) :
  emitArtifacts h es fs = Some fs' →
  (is_Some (fs !! p) → is_Some (fs' !! p))
  ∧ (fs' !! p ≠ fs !! p →
     ∃ e, e ∈ es
          ∧ (p = path_join (path_join (paths_artifacts h) (file_sourceName e)) "artifacts.d.ts"
             ∨ ∃ name, name ∈ artifactsEmitted e
                       ∧ p = path_join (path_join (paths_artifacts h) (file_sourceName e))
                               (name +:+ ".d.ts"))).
Proof. apply emitArtifacts_paths. Qed.

Lemma emitArtifacts_writes_only_declarations_witness :
  is_Some (projectFs !! ["project"; "package.json"])
  ∧ is_Some (generatedInProject !! ["project"; "package.json"])
  ∧ generatedInProject !! ["project"; "artifacts"; "contracts"; "X.sol"; "X.d.ts"]
    ≠ projectFs !! ["project"; "artifacts"; "contracts"; "X.sol"; "X.d.ts"]
  ∧ ∃ e, e ∈ Examples.emittedXYZ
         ∧ (["project"; "artifacts"; "contracts"; "X.sol"; "X.d.ts"]
            = path_join (path_join (paths_artifacts Examples.hostXYZ) (file_sourceName e))
                "artifacts.d.ts"
            ∨ ∃ name, name ∈ artifactsEmitted e
                      ∧ ["project"; "artifacts"; "contracts"; "X.sol"; "X.d.ts"]
                        = path_join
                            (path_join (paths_artifacts Examples.hostXYZ) (file_sourceName e))
                            (name +:+ ".d.ts")).
Proof.
  assert (Hkept : is_Some (projectFs !! ["project"; "package.json"])) by by eexists.
  assert (Hchanged : generatedInProject !! ["project"; "artifacts"; "contracts"; "X.sol"; "X.d.ts"]
                     ≠ projectFs !! ["project"; "artifacts"; "contracts"; "X.sol"; "X.d.ts"]).
  { assert (Hthere : match generatedInProject
                             !! ["project"; "artifacts"; "contracts"; "X.sol"; "X.d.ts"] with
                     | Some _ => true
                     | None => false
                     end = true) by (vm_compute; reflexivity).
    destruct (generatedInProject !! _); [|discriminate Hthere].
    unfold projectFs. by rewrite lookup_singleton_ne. }
  split; [exact Hkept|]. split; [|split; [exact Hchanged|]].
  - exact (proj1 (emitArtifacts_writes_only_declarations Examples.hostXYZ Examples.emittedXYZ
                    projectFs generatedInProject ["project"; "package.json"]
                    generatedInProject_emitted) Hkept).
  - exact (proj2 (emitArtifacts_writes_only_declarations Examples.hostXYZ Examples.emittedXYZ
                    projectFs generatedInProject
                    ["project"; "artifacts"; "contracts"; "X.sol"; "X.d.ts"]
                    generatedInProject_emitted) Hchanged).
Defined.

(** X15. On a disk that holds what the emit sub-task generated and nothing else,
    the pruner removes nothing, whatever the valid sources are, unless the
    name of an emitted contract ends in [file]: the pruner looks for paths
    that end in [file.d.ts] and the emit sub-task writes none. *)
Theorem generated_directories_are_never_pruned (h h' : Host) (es : list EmittedFile)
    (fs : gmap path string) :
  emitArtifacts h es ∅ = Some fs →
  Forall (λ e, Forall (λ name, no_slash name = true ∧ endsWith name "file" = false)
                 (artifactsEmitted e)) es →
  is_Some (mapM parseFullyQualifiedName (fullyQualifiedNames h')) →
  getAllFilesMatching (paths_artifacts h') (fun f => endsWith f "file.d.ts") fs = []
  ∧ removeObsoleteArtifacts h' fs = Some fs.
Proof.
  intros Hemit Hnames Hparse.
  assert (Hnone : getAllFilesMatching (paths_artifacts h')
                    (fun f => endsWith f "file.d.ts") fs = []).
  { apply elem_of_nil_inv. intros p (Hfile & _ & Hends)%Pruner.getAllFilesMatching_elem.
    destruct (emitArtifacts_paths h es ∅ fs p Hemit) as [_ Hchanged].
    destruct Hchanged as (e & He & Hp).
    { rewrite lookup_empty. by destruct Hfile as [? ->]. }
    rewrite Forall_forall in Hnames. specialize (Hnames e He).
    destruct Hp as [->|(name & Hname & ->)].
    - change "artifacts.d.ts" with ("artifacts" +:+ ".d.ts") in Hends.
      by rewrite generated_path_not_marker in Hends.
    - rewrite Forall_forall in Hnames. destruct (Hnames name Hname) as [Hslash Hfile'].
      by rewrite generated_path_not_marker in Hends. }
  split; [done|]. by apply Pruner.removeObsoleteArtifacts_nothing_found.
Qed.

Ltac walk_to_join :=
  repeat lazymatch goal with
         | |- occurs_in _ (join _ (List.map _ _) +:+ _) => fail
         | |- occurs_in _ (_ +:+ _) => apply occurs_in_app_l
         end.

(** The aggregate of a source file imports the type of every contract and
    maps both its bare and its qualified name to it. *)
Lemma generateDTsFile_entries (data : list ContractTypeData) (ctd : ContractTypeData) :
  ctd ∈ data →
  occurs_in ("import { " +:+ ctd_typeName ctd +:+ " } from "
             +:+ quoted ("./" +:+ ctd_contractName ctd) +:+ ";") (generateDTsFile data)
  ∧ occurs_in ("[" +:+ quoted (ctd_contractName ctd) +:+ "]: " +:+ ctd_typeName ctd +:+ ";")
      (generateDTsFile data)
  ∧ occurs_in ("[" +:+ quoted (ctd_fqn ctd) +:+ "]: " +:+ ctd_typeName ctd +:+ ";")
      (generateDTsFile data).
Proof.
  intros Hin. unfold generateDTsFile. repeat split.
  - walk_to_join. apply occurs_in_app_r, occurs_in_join.
    apply list_elem_of_In, in_map_iff. exists ctd. split; [done | by apply list_elem_of_In].
  - walk_to_join. apply occurs_in_app_l. walk_to_join.
    apply occurs_in_app_r, occurs_in_join.
    apply list_elem_of_In, in_map_iff. exists ctd. split; [done | by apply list_elem_of_In].
  - walk_to_join. apply occurs_in_app_l. walk_to_join. apply occurs_in_app_l. walk_to_join.
    apply occurs_in_app_r, occurs_in_join.
    apply list_elem_of_In, in_map_iff. exists ctd. split; [done | by apply list_elem_of_In].
Qed.

(** *** One callback whose writes do not meet *)

Lemma mkdir_rejects_false (dir : path) (fs : gmap path string) :
  mkdir_rejects dir fs = false →
  ∀ q : path, is_Some (fs !! q) → ¬ q `prefix_of` dir.
Proof.
  unfold mkdir_rejects. intros Hnone q [c Hq] Hprefix.
  assert (Hex : existsb (fun q => bool_decide (q `prefix_of` dir)) (map_to_list fs).*1 = true);
    [|congruence].
  apply existsb_exists. exists q. split; [|by apply bool_decide_eq_true].
  apply list_elem_of_In, list_elem_of_fmap. exists (q, c).
  split; [done | by apply elem_of_map_to_list].
Qed.

(** A path at or above a file of a directory is that file, or is at or
    above the directory. *)
Lemma prefix_of_snoc (q dir : path) (segment : string) :
  q `prefix_of` dir ++ [segment] → q = dir ++ [segment] ∨ q `prefix_of` dir.
Proof.
  intros [k Hk]. destruct k as [|y k _] using rev_ind.
  - left. by rewrite app_nil_r in Hk.
  - right. rewrite app_assoc in Hk. apply app_inj_tail in Hk as [-> _]. by exists k.
Qed.

(** Two files of the same directory are not above each other. *)
Lemma siblings_unrelated (dir : path) (a b : string) :
  dir ++ [a] `prefix_of` dir ++ [b] → a = b.
Proof. intros Hprefix%prefix_app_inv. by apply prefix_cons_inv_1 in Hprefix. Qed.

(** Once [mkdir] has passed, nothing is in the way of a file of the
    directory unless the file is a directory itself. *)
Lemma clear_at_file (dir : path) (segment : string) (fs : gmap path string) :
  mkdir_rejects dir fs = false →
  no_directory_at (dir ++ [segment]) fs →
  clear_at (dir ++ [segment]) fs.
Proof.
  intros Hmkdir Hfile q Hq Hne. split.
  - intros Hbelow. by apply Hne, Hfile.
  - intros [->|Habove]%prefix_of_snoc; [done|].
    by apply (mkdir_rejects_false dir fs Hmkdir q).
Qed.

Lemma contentsFor_none (p : path) (writes : list (path * string)) :
  p ∉ writes.*1 → contentsFor p writes = [].
Proof.
  unfold contentsFor. induction writes as [|[q c] writes IH]; [done|].
  rewrite fmap_cons, not_elem_of_cons. intros [Hne Hnot]. simpl in *.
  rewrite bool_decide_eq_false_2 by done. by apply IH.
Qed.

(** The content of the one write on a path. *)
Lemma contentsFor_unique (p : path) (content : string) (writes : list (path * string)) :
  NoDup writes.*1 → (p, content) ∈ writes → contentsFor p writes = [content].
Proof.
  induction writes as [|[q c] writes IH]; [by intros _ ?%elem_of_nil|].
  rewrite fmap_cons, NoDup_cons. intros [Hq Hnodup] [[= <- <-]|Hin]%elem_of_cons.
  - unfold contentsFor. simpl. rewrite bool_decide_eq_true_2 by done.
    rewrite fmap_cons. f_equal. by apply (contentsFor_none p).
  - assert (q ≠ p).
    { intros ->. apply Hq, list_elem_of_fmap. by exists (p, content). }
    unfold contentsFor. simpl. rewrite bool_decide_eq_false_2 by done. by apply IH.
Qed.

Lemma declaration_path_inj (dir : path) :
  Inj (=) (=) (λ name, path_join dir (name +:+ ".d.ts")).
Proof.
  intros a b Heq. unfold path_join in Heq.
  by apply app_inv_head, split_inj, append_inj_r in Heq.
Qed.

Lemma declaration_path (dir : path) (name : string) :
  no_slash name = true → path_join dir (name +:+ ".d.ts") = dir ++ [name +:+ ".d.ts"].
Proof. intros Hname. unfold path_join. by rewrite split_no_slash by by rewrite no_slash_app, Hname. Qed.

(** The paths one callback writes to, from the emitted names. *)
Lemma emitFileWrites_names (h : Host) (dups : list string) (fs : gmap path string)
    (e : EmittedFile) (writes : list (path * string)) :
  emitFileWrites h dups fs e = Some writes →
  writes.*1 =
  (λ n, path_join (path_join (paths_artifacts h) (file_sourceName e)) (n +:+ ".d.ts"))
  <$> (artifactsEmitted e ++ ["artifacts"]).
Proof.
  intros (data & _ & Hdata & ->)%emitFileWrites_Some.
  rewrite !fmap_app, <- (data_contractNames _ _ _ _ _ Hdata). f_equal.
  clear. induction data as [|ctd data IH]; [done|].
  cbn [List.map fmap list_fmap fst]. f_equal. exact IH.
Qed.

(** Names that are pairwise distinct, none of them [artifacts], give one
    write per path. *)
Lemma emitFileWrites_NoDup (h : Host) (dups : list string) (fs : gmap path string)
    (e : EmittedFile) (writes : list (path * string)) :
  emitFileWrites h dups fs e = Some writes →
  NoDup (artifactsEmitted e) →
  "artifacts" ∉ artifactsEmitted e →
  NoDup writes.*1.
Proof.
  intros Hwrites Hnodup Hnot. rewrite (emitFileWrites_names _ _ _ _ _ Hwrites).
  apply (@NoDup_fmap_2 _ _ _ (declaration_path_inj _)).
  apply NoDup_app. split; [done|]. split; [|apply NoDup_singleton].
  intros n Hn Heq%list_elem_of_singleton. by subst n.
Qed.

(** With one write per path, what the host makes of concurrent writes does
    not matter. *)
Lemma settle_unique (h h' : Host) (writes : list (path * string)) (fs : gmap path string) :
  NoDup writes.*1 → settle h writes fs = settle h' writes fs.
Proof.
  intros Hnodup. unfold settle.
  assert (Hsame : ∀ w, w ∈ writes →
                       settledContent h writes w.1 = settledContent h' writes w.1).
  { intros [q c] Hw. unfold settledContent. simpl.
    by rewrite (contentsFor_unique q c writes Hnodup Hw). }
  by apply (writes_ext fst).
Qed.

(** X14. A source file whose emitted contract names are pairwise distinct,
    hold no slash and are not [artifacts] has one write per path. For every
    such contract, the emit callback then writes the declaration generated
    from the artifact it read, under the contract's name, and the aggregate of
    the directory, which imports the contract's type and maps the bare and the
    qualified name to it, colliding or not; provided neither path is a
    directory. *)
Theorem emitFile_writes_each_declaration (h : Host) (dups : list string)
    (fs fs' : gmap path string) (e : EmittedFile) (name : string) :
  emitFile h dups fs e = Some fs' →
  NoDup (artifactsEmitted e) →
  Forall (λ n, no_slash n = true ∧ n ≠ "artifacts") (artifactsEmitted e) →
  name ∈ artifactsEmitted e →
  no_directory_at
    (path_join (path_join (paths_artifacts h) (file_sourceName e)) (name +:+ ".d.ts")) fs →
  no_directory_at
    (path_join (path_join (paths_artifacts h) (file_sourceName e)) "artifacts.d.ts") fs →
  let dir := path_join (paths_artifacts h) (file_sourceName e) in
  let fqn := getFullyQualifiedName (file_sourceName e) name in
  let typeName := name +:+ "$Type" in
  ∃ (artifact : json) (declaration aggregate : string),
    readArtifact h fqn = Some artifact
    ∧ generateContractDeclaration artifact (includes dups name) = Some declaration
    ∧ fs' !! path_join dir (name +:+ ".d.ts") = Some declaration
    ∧ fs' !! path_join dir "artifacts.d.ts" = Some aggregate
    ∧ occurs_in ("import { " +:+ typeName +:+ " } from " +:+ quoted ("./" +:+ name) +:+ ";")
        aggregate
    ∧ occurs_in ("[" +:+ quoted name +:+ "]: " +:+ typeName +:+ ";") aggregate
    ∧ occurs_in ("[" +:+ quoted fqn +:+ "]: " +:+ typeName +:+ ";") aggregate.
Proof.
  unfold emitFile. intros Hemit Hnodup Hnames Hname Hfile Haggregate. cbv zeta.
  destruct (emitFileWrites h dups fs e) as [writes|] eqn:Hstarted; [simpl in Hemit|done].
  injection Hemit as <-.
  pose proof Hstarted as (data & Hmkdir & Hdata & Hwrites)%emitFileWrites_Some. cbv zeta in *.
  set (dir := path_join (paths_artifacts h) (file_sourceName e)) in *.
  destruct (data_names _ _ _ _ _ Hdata) as [_ Hdatas].
  destruct (Hdatas name Hname) as (ctd & Hctd & Hof).
  pose proof Hof as (artifact & declaration & Hread & Hgen & ->)%contractTypeDataOf_Some.
  assert (Hpaths : writes.*1 =
                   (λ n, path_join dir (n +:+ ".d.ts")) <$> (artifactsEmitted e ++ ["artifacts"]))
    by by apply (emitFileWrites_names h dups fs).
  assert (Hunique : NoDup writes.*1).
  { apply (emitFileWrites_NoDup h dups fs e); [done..|].
    intros Hin. rewrite Forall_forall in Hnames. by destruct (Hnames _ Hin). }
  assert (Hsegments : ∀ w, w ∈ writes → ∃ n, no_slash n = true ∧ w.1 = dir ++ [n +:+ ".d.ts"]).
  { intros w Hw. assert (Hin : w.1 ∈ writes.*1) by (apply list_elem_of_fmap; eauto).
    rewrite Hpaths in Hin. apply list_elem_of_fmap in Hin as (n & -> & Hn).
    exists n. assert (no_slash n = true) as Hslash.
    { apply elem_of_app in Hn as [Hn|Hn%list_elem_of_singleton]; [|by subst].
      rewrite Forall_forall in Hnames. by destruct (Hnames _ Hn). }
    split; [done | by apply declaration_path]. }
  assert (Hsettled : ∀ p content,
            (p, content) ∈ writes → no_directory_at p fs →
            settle h writes fs !! p = Some content).
  { intros p content Hin Hnodir. unfold settle.
    destruct (writes_lookup fst (λ w, settledContent h writes w.1) writes fs p)
      as (_ & _ & Hlast).
    destruct (Hsegments _ Hin) as (n & Hn & Hp). simpl in Hp. subst p.
    apply Hlast.
    - by exists (dir ++ [n +:+ ".d.ts"], content).
    - apply Forall_forall. intros w _ ->.
      unfold settledContent. by rewrite (contentsFor_unique _ content) by done.
    - by apply clear_at_file.
    - apply Forall_forall. intros w Hw.
      destruct (Hsegments _ Hw) as (n' & _ & Hpath).
      destruct w as [q c]. simpl in Hpath |- *. subst q.
      destruct (decide (n' = n)) as [->|Hne]; [by left | right].
      split; intros Hprefix%siblings_unrelated%append_inj_r; congruence. }
  exists artifact, declaration, (generateDTsFile data).
  split; [done|]. split; [done|]. split; [|split].
  - apply Hsettled; [|done]. rewrite Hwrites. apply elem_of_app. left.
    apply list_elem_of_In, in_map_iff. eexists. split; [|by apply list_elem_of_In]. done.
  - apply Hsettled; [|done]. rewrite Hwrites. apply elem_of_app. right.
    by apply list_elem_of_singleton.
  - apply (generateDTsFile_entries data _ Hctd).
Qed.

Lemma emitFile_writes_each_declaration_witness :
  ∃ (artifact : json) (declaration aggregate : string),
    readArtifact Examples.hostXYZ "contracts/X.sol:X" = Some artifact
    ∧ generateContractDeclaration artifact false = Some declaration
    ∧ emittedX !! ["project"; "artifacts"; "contracts"; "X.sol"; "X.d.ts"] = Some declaration
    ∧ emittedX !! ["project"; "artifacts"; "contracts"; "X.sol"; "artifacts.d.ts"]
      = Some aggregate.
Proof.
  destruct (emitFile_writes_each_declaration Examples.hostXYZ [] ∅ emittedX
              {| file_sourceName := "contracts/X.sol"; artifactsEmitted := ["X"] |} "X")
    as (artifact & declaration & aggregate & Hread & Hgen & Hfile & Haggregate & _).
  - exact emittedX_emitted.
  - repeat constructor. by intros ?%elem_of_nil.
  - repeat constructor. discriminate.
  - apply list_elem_of_here.
  - intros q [c Hq]. by rewrite lookup_empty in Hq.
  - intros q [c Hq]. by rewrite lookup_empty in Hq.
  - exists artifact, declaration, aggregate.
    split; [exact Hread|]. split; [exact Hgen|].
    split; [exact Hfile | exact Haggregate].
Defined.

Lemma emitFileWrites_ext (h h' : Host) (dups : list string) (fs : gmap path string)
    (e : EmittedFile) :
  (∀ fqn, readArtifact h fqn = readArtifact h' fqn) →
  paths_artifacts h = paths_artifacts h' →
  emitFileWrites h dups fs e = emitFileWrites h' dups fs e.
Proof.
  intros Hread Hpaths. unfold emitFileWrites. rewrite Hpaths.
  destruct (mkdir_rejects _ fs); [done|].
  assert (Hdata : mapM (contractTypeDataOf h dups (file_sourceName e)) (artifactsEmitted e)
                  = mapM (contractTypeDataOf h' dups (file_sourceName e)) (artifactsEmitted e)).
  { induction (artifactsEmitted e) as [|name names IH]; [done|].
    cbn [mapM]. rewrite IH. unfold contractTypeDataOf. by rewrite Hread. }
  by rewrite Hdata.
Qed.

(** X16. The emit callback is deterministic where its writes do not meet:
    for a source file whose emitted contract names are pairwise distinct and
    not [artifacts], two hosts that read the same artifacts and have the same
    artifacts directory leave the same files, whatever each of them makes of
    writes that are in flight together. *)
Theorem emitFile_independent_of_write_order (h h' : Host) (dups : list string)
    (fs : gmap path string) (e : EmittedFile) :
  (∀ fqn, readArtifact h fqn = readArtifact h' fqn) →
  paths_artifacts h = paths_artifacts h' →
  NoDup (artifactsEmitted e) →
  "artifacts" ∉ artifactsEmitted e →
  emitFile h dups fs e = emitFile h' dups fs e.
Proof.
  intros Hread Hpaths Hnodup Hnot. unfold emitFile.
  rewrite <- (emitFileWrites_ext h h' dups fs e Hread Hpaths).
  destruct (emitFileWrites h dups fs e) as [writes|] eqn:Hwrites; [|done].
  cbn [mbind option_bind]. f_equal. apply settle_unique.
  by apply (emitFileWrites_NoDup h dups fs e).
Qed.

Lemma emitFile_independent_of_write_order_witness :
  emitFile Examples.hostXYZ [] ∅
    {| file_sourceName := "contracts/X.sol"; artifactsEmitted := ["X"] |}
  = emitFile hostXYZfirst [] ∅
      {| file_sourceName := "contracts/X.sol"; artifactsEmitted := ["X"] |}.
Proof.
  apply (emitFile_independent_of_write_order Examples.hostXYZ hostXYZfirst [] ∅
           {| file_sourceName := "contracts/X.sol"; artifactsEmitted := ["X"] |}).
  - reflexivity.
  - reflexivity.
  - repeat constructor. by intros ?%elem_of_nil.
  - intros Hin%list_elem_of_singleton. discriminate Hin.
Defined.

Lemma generated_directories_are_never_pruned_witness :
  getAllFilesMatching (paths_artifacts Examples.hostXY) (fun f => endsWith f "file.d.ts")
    Examples.generated = []
  ∧ removeObsoleteArtifacts Examples.hostXY Examples.generated = Some Examples.generated.
Proof.
  apply (generated_directories_are_never_pruned Examples.hostXYZ Examples.hostXY
           Examples.emittedXYZ Examples.generated).
  - exact generated_emitted.
  - repeat constructor.
  - by eexists.
Defined.

End EmitFacts.
